(** * Calibration of ONNX models for 8-bit quantization

    A shallow embedding of [onnxruntime/python/tools/quantization/calibrate.py]
    and the properties of its three stages: graph augmentation
    ([augment_graph]), statistics aggregation ([get_intermediate_outputs]) and
    parameter derivation ([calculate_scale_zeropoint],
    [calculate_quantization_params]), together with the part of [main] that
    chains them.

    The development has two layers.  The first embeds the source on
    idealised data: numbers are exact rationals [Q], without rounding,
    infinities or NaN, compared with [==] on [Q]; a session returns on every
    input; [main] is followed up to the dictionary it hands to [quantize].
    This layer carries the properties of graphs, names, dictionaries and of
    the order of effects, and the worked numeric examples.  The second
    layer, module [Runtime], embeds lines 57-164 and 208-227 once more with
    floating-point values, number objects whose arithmetic is left open,
    sessions that can raise, and [main] followed to its last line; it
    carries the properties that depend on NaN, on rounding and on failing
    runs.

    Objects.  A loaded [ModelProto] is a mutable object: models live in a
    [heap] and are passed by reference wherever the source mutates them.

    Dictionaries keep their keys in insertion order, as Python's do since
    version 3.7, and are embedded as association lists.

    Exceptions.  Every partial operation of the source (indexing, dictionary
    lookup, [raise]) returns in the [result] monad.  The inference engine,
    the preprocessing of the dataset and the quantizer are outside the
    source: a session is a record of its declared inputs and outputs and of
    what a run gives for an input. *)

From Stdlib Require Import Ascii String QArith Qround Lqa ZArith Lia.
From stdpp Require Import base option list strings gmap.

Local Open Scope string_scope.
Local Open Scope list_scope.

(** ** Python exceptions and the error monad *)

(** The place of an out-of-range subscript, as a traceback would show it. *)
Inductive index_site : Type :=
  | NodeOutput0        (* node.output[0] *)
  | NextNode           (* model.graph.node[index+1] *)
  | ClipAttribute      (* next_node.attribute[0], next_node.attribute[1] *)
  | SessionInputs      (* session.get_inputs()[0] *)
  | FirstSnapshot      (* intermediate_outputs[0] *)
  | SessionOutputs     (* session.get_outputs()[i] *)
  | ProbePartner.      (* added_node_output_names[i+1] *)

Inductive exn : Type :=
  | ValueError (msg : string)
  | IndexError (site : index_site)
  | KeyError (key : string)
  | TypeError (msg : string)
  | FileNotFoundError (path : string)
  | OverflowError (msg : string)
  | SystemExit (msg : string)
  | OrtError (msg : string).      (* what onnxruntime raises when a run fails *)

Inductive result (A : Type) : Type :=
  | Ok (a : A)
  | Raise (e : exn).
Arguments Ok {A} a.
Arguments Raise {A} e.

Definition rbind {A B} (m : result A) (k : A -> result B) : result B :=
  match m with
  | Ok a => k a
  | Raise e => Raise e
  end.

#[global] Instance result_ret : MRet result := fun A a => Ok a.
#[global] Instance result_bind : MBind result := fun A B k m => rbind m k.
#[global] Instance result_fmap : FMap result :=
  fun A B f m => rbind m (fun a => Ok (f a)).

(** Unfolds the binds of the error monad, and nothing else. *)
Tactic Notation "rsimpl" := cbn [mbind result_bind rbind].
Tactic Notation "rsimpl" "in" hyp(H) := cbn [mbind result_bind rbind] in H.

(** [l[i]] on a Python list or a protobuf repeated field. *)
Definition subscript {A} (site : index_site) (l : list A) (i : nat) : result A :=
  match l !! i with
  | Some a => Ok a
  | None => Raise (IndexError site)
  end.

Definition str_in (s : string) (l : list string) : bool :=
  existsb (String.eqb s) l.

(** [s.rpartition(sep)[0]]: what precedes the last [sep], or the empty
    string when [s] has no [sep]. *)
Fixpoint rpartition_before (sep : Ascii.ascii) (s : string) : option string :=
  match s with
  | EmptyString => None
  | String c s' =>
      match rpartition_before sep s' with
      | Some before => Some (String c before)
      | None => if Ascii.eqb c sep then Some EmptyString else None
      end
  end.

Definition rpartition0 (sep : Ascii.ascii) (s : string) : string :=
  default EmptyString (rpartition_before sep s).

(** ** Insertion-ordered dictionaries

    A Python [dict] keeps its keys in insertion order; assigning to an
    existing key keeps the position of the key. *)
Definition dict (V : Type) : Type := list (string * V).

Fixpoint dict_get {V} (d : dict V) (k : string) : option V :=
  match d with
  | [] => None
  | (k', v) :: d' => if String.eqb k' k then Some v else dict_get d' k
  end.

Definition dict_mem {V} (d : dict V) (k : string) : bool :=
  match dict_get d k with Some _ => true | None => false end.

Fixpoint dict_set {V} (d : dict V) (k : string) (v : V) : dict V :=
  match d with
  | [] => [(k, v)]
  | (k', v') :: d' =>
      if String.eqb k' k then (k', v) :: d' else (k', v') :: dict_set d' k v
  end.

Definition dict_keys {V} (d : dict V) : list string := map fst d.

(** [d[k]] *)
Definition dict_item {V} (d : dict V) (k : string) : result V :=
  match dict_get d k with
  | Some v => Ok v
  | None => Raise (KeyError k)
  end.

(** [dict(zip(ks, vs))] *)
Definition dict_zip {V} (ks : list string) (vs : list V) : dict V :=
  fold_left (fun d kv => dict_set d (fst kv) (snd kv)) (combine ks vs) [].

(** ** Numbers *)

Definition Qlt_bool (x y : Q) : bool := negb (Qle_bool y x).

(** Python's two-argument [min(a, b)] and [max(a, b)]: the first argument
    unless the second is strictly smaller (larger). *)
Definition py_min (a b : Q) : Q := if Qlt_bool b a then b else a.
Definition py_max (a b : Q) : Q := if Qlt_bool a b then b else a.

(** [round(x)] on a float: to the nearest integer, ties to the even one. *)
Definition py_round (x : Q) : Z :=
  let fl := Qfloor x in
  let frac := (x - inject_Z fl)%Q in
  if Qlt_bool frac (1 # 2) then fl
  else if Qlt_bool (1 # 2) frac then (fl + 1)%Z
  else if Z.even fl then fl else (fl + 1)%Z.

(** [np.uint8(n)] on a Python int: reduction modulo 2^8. *)
Definition np_uint8 (n : Z) : Z := (n mod 256)%Z.

(** [np.float32(x)]: the value itself, rounding being left out of the model. *)
Definition np_float32 (x : Q) : Q := x.

(** ** The ONNX data model *)

Record AttributeProto : Type := {
  attr_name : string;
  attr_f : Q;      (* .f, the float payload; 0.0 when unset *)
  attr_i : Z       (* .i, the integer payload; 0 when unset *)
}.

Record NodeProto : Type := {
  op_type : string;
  name : string;
  input : list string;
  output : list string;
  attribute : list AttributeProto
}.

Inductive elem_type_t : Type := FLOAT.

Record ValueInfoProto : Type := {
  vi_name : string;
  vi_elem_type : elem_type_t;
  vi_shape : list Z
}.

Record GraphProto : Type := {
  node : list NodeProto;
  graph_input : list ValueInfoProto;
  graph_output : list ValueInfoProto     (* graph.output *)
}.

Record ModelProto : Type := { graph : GraphProto }.

(** [onnx.helper.make_node(op_type, inputs, outputs, name, keepdims=k)] *)
Definition make_node (op : string) (inputs outputs : list string)
    (nm : string) (keepdims : Z) : NodeProto :=
  {| op_type := op; name := nm; input := inputs; output := outputs;
     attribute := [ {| attr_name := "keepdims"; attr_f := 0; attr_i := keepdims |} ] |}.

(** [helper.make_tensor_value_info(name, elem_type, shape)] *)
Definition make_tensor_value_info (nm : string) (ty : elem_type_t)
    (shape : list Z) : ValueInfoProto :=
  {| vi_name := nm; vi_elem_type := ty; vi_shape := shape |}.

(** ** Stage 1: [augment_graph] *)

Definition quantization_candidates : list string := ["Conv"; "MatMul"].

(** The body of the [for node in model.graph.node] loop, threading the two
    accumulators [added_nodes] and [added_outputs]. *)
Fixpoint augment_loop (nodes : list NodeProto)
    (added_nodes : list NodeProto) (added_outputs : list ValueInfoProto)
    : result (list NodeProto * list ValueInfoProto) :=
  match nodes with
  | [] => Ok (added_nodes, added_outputs)
  | nd :: rest =>
      if str_in (op_type nd) quantization_candidates then
        input_name ← subscript NodeOutput0 (output nd) 0;
        let reduce_min_name := name nd +:+ "_ReduceMin" in
        let reduce_min_node :=
          make_node "ReduceMin" [input_name] [input_name +:+ "_ReduceMin"]
                    reduce_min_name 0 in
        let added_nodes := added_nodes ++ [reduce_min_node] in
        min_out ← subscript NodeOutput0 (output reduce_min_node) 0;
        let added_outputs :=
          added_outputs ++ [make_tensor_value_info min_out FLOAT []] in
        let reduce_max_name := name nd +:+ "_ReduceMax" in
        let reduce_max_node :=
          make_node "ReduceMax" [input_name] [input_name +:+ "_ReduceMax"]
                    reduce_max_name 0 in
        let added_nodes := added_nodes ++ [reduce_max_node] in
        max_out ← subscript NodeOutput0 (output reduce_max_node) 0;
        let added_outputs :=
          added_outputs ++ [make_tensor_value_info max_out FLOAT []] in
        augment_loop rest added_nodes added_outputs
      else augment_loop rest added_nodes added_outputs
  end.

(** The probes of one candidate node, named as in the loop body. *)
Definition eligible (nd : NodeProto) : bool :=
  str_in (op_type nd) quantization_candidates.

Definition primary_output (nd : NodeProto) : string :=
  default EmptyString (head (output nd)).

Definition min_probe_node (nd : NodeProto) : NodeProto :=
  make_node "ReduceMin" [primary_output nd]
            [primary_output nd +:+ "_ReduceMin"] (name nd +:+ "_ReduceMin") 0.

Definition max_probe_node (nd : NodeProto) : NodeProto :=
  make_node "ReduceMax" [primary_output nd]
            [primary_output nd +:+ "_ReduceMax"] (name nd +:+ "_ReduceMax") 0.

Definition min_probe_output (nd : NodeProto) : ValueInfoProto :=
  make_tensor_value_info (primary_output nd +:+ "_ReduceMin") FLOAT [].

Definition max_probe_output (nd : NodeProto) : ValueInfoProto :=
  make_tensor_value_info (primary_output nd +:+ "_ReduceMax") FLOAT [].

(** [model.graph.node.extend(ns)] followed by [model.graph.output.extend(os)]. *)
Definition extend_graph (m : ModelProto) (ns : list NodeProto)
    (os : list ValueInfoProto) : ModelProto :=
  {| graph := {| node := node (graph m) ++ ns;
                 graph_input := graph_input (graph m);
                 graph_output := graph_output (graph m) ++ os |} |}.

(** The store of loaded models; a Python variable holding a model holds a
    reference into it. *)
Abbreviation heap := (list ModelProto).
Abbreviation ref := nat (only parsing).

(** [augment_graph(model)]: reads the object behind [model], extends it in
    place, and returns the reference it was given.  When the loop raises,
    nothing has been written yet. *)
Definition augment_graph (model : ref) (h : heap) : result ref * heap :=
  match h !! model with
  | None => (Raise (ValueError "dangling reference"), h)
  | Some m =>
      match augment_loop (node (graph m)) [] [] with
      | Raise e => (Raise e, h)
      | Ok (added_nodes, added_outputs) =>
          (Ok model, <[model := extend_graph m added_nodes added_outputs]> h)
      end
  end.

(** ** Stage 3: [calculate_scale_zeropoint] and [calculate_quantization_params] *)

(** Lines 103-104: the observed range is widened to contain zero. *)
Definition zero_clamp (rmin rmax : Q) : Q * Q :=
  (py_min rmin 0, py_max rmax 0).

(** Lines 109-118: the range, already widened to contain zero, is adjusted
    to a [Clip] or [Relu] successor. *)
Definition adjust_range (next_node : NodeProto) (rmin rmax : Q) : result (Q * Q) :=
  '(rmin, rmax) ←
    (if String.eqb (op_type next_node) "Clip" then
       a0 ← subscript ClipAttribute (attribute next_node) 0;
       let clip_min := attr_f a0 in
       a1 ← subscript ClipAttribute (attribute next_node) 1;
       let clip_max := attr_f a1 in
       let rmin := if Qlt_bool rmin clip_min then clip_min else rmin in
       let rmax := if Qlt_bool clip_max rmax then clip_max else rmax in
       Ok (rmin, rmax)
     else Ok (rmin, rmax));
  let rmin :=
    if String.eqb (op_type next_node) "Relu"
    then (if Qlt_bool rmin 0 then 0%Q else rmin)
    else rmin in
  Ok (rmin, rmax).

(** Lines 120-122: scale and zero point of a range. *)
Definition scale_of_range (rmin rmax : Q) : Q :=
  np_float32 (if negb (Qeq_bool rmin rmax) then (rmax - rmin) / 255 else 1)%Q.

Definition zero_point_of_range (rmin : Q) (scale : Q) : Z :=
  let initial_zero_point := ((0 - rmin) / scale)%Q in
  np_uint8 (py_round (py_max 0 (py_min 255 initial_zero_point))).

(** [calculate_scale_zeropoint(node, next_node, rmin, rmax)]; the returned
    list [[zero_point, scale]] is the pair [(zero_point, scale)]. *)
Definition calculate_scale_zeropoint (nd next_node : NodeProto)
    (rmin rmax : Q) : result (Z * Q) :=
  let '(rmin, rmax) := zero_clamp rmin rmax in
  '(rmin, rmax) ← adjust_range next_node rmin rmax;
  let scale := scale_of_range rmin rmax in
  let zero_point := zero_point_of_range rmin scale in
  Ok (zero_point, scale).

(** [enumerate(l)], counting from [start]. *)
Fixpoint enumerate_from {A} (start : nat) (l : list A) : list (nat * A) :=
  match l with
  | [] => []
  | x :: l' => (start, x) :: enumerate_from (S start) l'
  end.

Definition enumerate {A} (l : list A) : list (nat * A) := enumerate_from 0 l.

(** The [for index, node in enumerate(model.graph.node)] loop over the
    pairs still to visit, threading [quantization_params]; [nodes] is the
    whole of [model.graph.node]. *)
Fixpoint params_loop (nodes : list NodeProto)
    (quantization_thresholds : dict (Q * Q))
    (todo : list (nat * NodeProto)) (quantization_params : dict (Z * Q))
    : result (dict (Z * Q)) :=
  match todo with
  | [] => Ok quantization_params
  | (index, nd) :: rest =>
      node_output_name ← subscript NodeOutput0 (output nd) 0;
      if dict_mem quantization_thresholds node_output_name then
        node_thresholds ← dict_item quantization_thresholds node_output_name;
        next_node ← subscript NextNode nodes (index + 1);
        node_params ← calculate_scale_zeropoint nd next_node
                        (fst node_thresholds) (snd node_thresholds);
        params_loop nodes quantization_thresholds rest
          (dict_set quantization_params node_output_name node_params)
      else
        params_loop nodes quantization_thresholds rest quantization_params
  end.

(** [calculate_quantization_params(model, nbits, quantization_thresholds)];
    the function only reads [model]. *)
Definition calculate_quantization_params (model : ModelProto) (nbits : Z)
    (quantization_thresholds : option (dict (Q * Q))) : result (dict (Z * Q)) :=
  if negb (nbits =? 8)%Z then
    Raise (ValueError "Unknown value for nbits. only 8 bit quantization is currently supported")
  else
    match quantization_thresholds with
    | None =>
        Raise (ValueError "output quantization threshold is required to calculate quantization thresholds")
    | Some thresholds =>
        params_loop (node (graph model)) thresholds
          (enumerate (node (graph model))) []
    end.

(** ** Stage 2: [get_intermediate_outputs] *)

(** What a session returns for one declared output: an array holding a
    single number (the probes reduce with [keepdims=0]), or an array of
    several elements, of which only the kind matters here. *)
Inductive value : Type :=
  | Scalar (x : Q)
  | Tensor.

Record NodeArg : Type := {
  arg_name : string;
  arg_shape : list Z
}.

(** An [onnxruntime.InferenceSession]: its declared inputs and outputs and
    the outputs it computes for one input. *)
Record InferenceSession (tensor : Type) : Type := {
  get_inputs : list NodeArg;
  get_outputs : list NodeArg;
  run : tensor -> list value
}.
Arguments get_inputs {tensor} _.
Arguments get_outputs {tensor} _.
Arguments run {tensor} _ _.

(** [onnx.load(path)] *)
Definition onnx_load (files : gmap string ModelProto) (path : string)
    : result ModelProto :=
  match files !! path with
  | Some m => Ok m
  | None => Raise (FileNotFoundError path)
  end.

Fixpoint rfold_left {A B} (f : A -> B -> result A) (l : list B) (a : A)
    : result A :=
  match l with
  | [] => Ok a
  | b :: l' => a' ← f a b; rfold_left f l' a'
  end.

(** What [if] raises on an array of several booleans. *)
Definition ambiguous_truth : exn :=
  ValueError "The truth value of an array with more than one element is ambiguous".

(** [y < m] used as a condition, on two arrays. *)
Definition value_lt (y m : value) : result bool :=
  match y, m with
  | Scalar a, Scalar b => Ok (Qlt_bool a b)
  | _, _ => Raise ambiguous_truth
  end.

(** The builtins [min(l)] and [max(l)] on a list of arrays. *)
Definition min_of (l : list value) : result value :=
  match l with
  | [] => Raise (ValueError "min() arg is an empty sequence")
  | x :: rest =>
      rfold_left (fun m y : value => c ← value_lt y m; Ok (if c : bool then y else m))
                 rest x
  end.

Definition max_of (l : list value) : result value :=
  match l with
  | [] => Raise (ValueError "max() arg is an empty sequence")
  | x :: rest =>
      rfold_left (fun m y : value => c ← value_lt m y; Ok (if c : bool then y else m))
                 rest x
  end.

(** [float(v)] *)
Definition py_float (v : value) : result Q :=
  match v with
  | Scalar x => Ok x
  | Tensor => Raise (TypeError "only size-1 arrays can be converted to Python scalars")
  end.

(** [merged_dict.setdefault(k, []).append(v)] *)
Definition setdefault_append {V} (merged : dict (list V)) (k : string) (v : V)
    : dict (list V) :=
  dict_set merged k (default [] (dict_get merged k) ++ [v]).

(** Lines 80-83. *)
Definition merge_dicts {V} (output_dicts : list (dict V)) : dict (list V) :=
  fold_left
    (fun merged d =>
       fold_left (fun merged kv => setdefault_append merged (fst kv) (snd kv))
                 d merged)
    output_dicts [].

(** [[l[i] for i in range(0, len(l), 2)]] *)
Fixpoint even_positions {A} (l : list A) : list A :=
  match l with
  | [] => []
  | x :: rest =>
      x :: match rest with
           | [] => []
           | _ :: rest' => even_positions rest'
           end
  end.

(** Line 88: every entry except the one under the first key. *)
Definition clean_dict {V} (merged : dict V) : dict V :=
  match dict_keys merged with
  | [] => []
  | first :: _ => List.filter (fun kv => negb (String.eqb (fst kv) first)) merged
  end.

(** Lines 90-92: one (min, max) pair per two consecutive probe outputs. *)
Fixpoint naive_pairs (clean_merged_dict : dict (list value))
    (added_node_output_names : list string) : result (list (Q * Q)) :=
  match added_node_output_names with
  | [] => Ok []
  | min_name :: rest =>
      mins ← dict_item clean_merged_dict min_name;
      lo ← min_of mins;
      lo ← py_float lo;
      match rest with
      | [] => Raise (IndexError ProbePartner)
      | max_name :: rest' =>
          maxs ← dict_item clean_merged_dict max_name;
          hi ← max_of maxs;
          hi ← py_float hi;
          pairs ← naive_pairs clean_merged_dict rest';
          Ok ((lo, hi) :: pairs)
      end
  end.

(** The error of line 94. *)
Definition unknown_calib_mode : exn :=
  ValueError "Unknown value for calib_mode. Currently only naive mode is supported.".

Section Collector.
Context {tensor : Type}.

(** [session.run([], {input_name: x})]: one inference call, recorded in
    the log of the inputs the session has been run on. *)
Definition session_run (session : InferenceSession tensor)
    (input_name : string) (x : tensor) (calls : list tensor)
    : list value * list tensor :=
  (run session x, calls ++ [x]).

(** Line 75: the comprehension over [range(num_inputs)]. *)
Fixpoint run_samples (session : InferenceSession tensor)
    (input_name : string) (inputs : list tensor) (calls : list tensor)
    : list (list value) * list tensor :=
  match inputs with
  | [] => ([], calls)
  | x :: rest =>
      let '(outs, calls) := session_run session input_name x calls in
      let '(more, calls) := run_samples session input_name rest calls in
      (outs :: more, calls)
  end.

(** Lines 78-97, which no longer touch the session's state. *)
Definition aggregate (session : InferenceSession tensor)
    (num_model_outputs : nat) (intermediate_outputs : list (list value))
    (calib_mode : string) : result (dict (Q * Q)) :=
  first ← subscript FirstSnapshot intermediate_outputs 0;
  node_output_names ←
    mapM (fun i => arg_name <$> subscript SessionOutputs (get_outputs session) i)
         (seq 0 (length first));
  let output_dicts := map (dict_zip node_output_names) intermediate_outputs in
  let merged_dict := merge_dicts output_dicts in
  let added_node_output_names := drop num_model_outputs node_output_names in
  let node_names :=
    map (rpartition0 "_"%char) (even_positions added_node_output_names) in
  let clean_merged_dict := clean_dict merged_dict in
  pairs ←
    (if String.eqb calib_mode "naive"
     then naive_pairs clean_merged_dict added_node_output_names
     else Raise unknown_calib_mode);
  let final_dict := dict_zip node_names pairs in
  Ok final_dict.

(** [get_intermediate_outputs(model_path, session, inputs, calib_mode)],
    reading the file system [files] and threading the call log. *)
Definition get_intermediate_outputs (files : gmap string ModelProto)
    (model_path : string) (session : InferenceSession tensor)
    (inputs : list tensor) (calib_mode : string) (calls : list tensor)
    : result (dict (Q * Q)) * list tensor :=
  match onnx_load files model_path with
  | Raise e => (Raise e, calls)
  | Ok model =>
      let num_model_outputs := length (graph_output (graph model)) in
      match subscript SessionInputs (get_inputs session) 0 with
      | Raise e => (Raise e, calls)
      | Ok input0 =>
          let input_name := arg_name input0 in
          let '(intermediate_outputs, calls) :=
            run_samples session input_name inputs calls in
          (aggregate session num_model_outputs intermediate_outputs calib_mode,
           calls)
      end
  end.
End Collector.

(** ** [main]: the three stages chained *)

(** What [main] acts on: the loaded models, the files, and the inference
    calls made so far. *)
Record world (tensor : Type) : Type := {
  w_heap : heap;
  w_files : gmap string ModelProto;
  w_calls : list tensor
}.
Arguments Build_world {tensor} _ _ _.
Arguments w_heap {tensor} _.
Arguments w_files {tensor} _.
Arguments w_calls {tensor} _.

Definition augmented_model_path : string := "augmented_model.onnx".

(** [(samples, channels, height, width) = shape] *)
Definition unpack4 (shape : list Z) : result (Z * Z * Z * Z) :=
  match shape with
  | [a; b; c; d] => Ok (a, b, c, d)
  | _ => Raise (ValueError "wrong number of values to unpack")
  end.

Section Main.
Context {tensor : Type}.
(** The inference engine: the session [onnxruntime.InferenceSession]
    builds for a model read from a file. *)
Variable engine : ModelProto -> InferenceSession tensor.

(** Lines 208-225 of [main], up to [quantization_params_dict]; [inputs]
    is what [load_batch] or [load_pb_file] returned. *)
Definition main (model_path calib_mode : string) (inputs : list tensor)
    (w : world tensor) : result (dict (Z * Q)) * world tensor :=
  (* model = onnx.load(model_path) *)
  match onnx_load (w_files w) model_path with
  | Raise e => (Raise e, w)
  | Ok loaded =>
      let model : ref := length (w_heap w) in
      let h := w_heap w ++ [loaded] in
      (* augmented_model = augment_graph(model) *)
      match augment_graph model h with
      | (Raise e, h) => (Raise e, Build_world h (w_files w) (w_calls w))
      | (Ok augmented_model, h) =>
          (* onnx.save(augmented_model, augmented_model_path) *)
          match h !! augmented_model with
          | None =>
              (Raise (ValueError "dangling reference"),
               Build_world h (w_files w) (w_calls w))
          | Some saved =>
              let files := <[augmented_model_path := saved]> (w_files w) in
              let w1 := Build_world h files (w_calls w) in
              (* session = onnxruntime.InferenceSession(augmented_model_path, None) *)
              match onnx_load files augmented_model_path with
              | Raise e => (Raise e, w1)
              | Ok served =>
                  let session := engine served in
                  match (input0 ← subscript SessionInputs (get_inputs session) 0;
                         unpack4 (arg_shape input0)) with
                  | Raise e => (Raise e, w1)
                  | Ok _ =>
                      (* dict_for_quantization = get_intermediate_outputs(...) *)
                      match get_intermediate_outputs files model_path session
                              inputs calib_mode (w_calls w) with
                      | (Raise e, calls) => (Raise e, Build_world h files calls)
                      | (Ok dict_for_quantization, calls) =>
                          let w2 := Build_world h files calls in
                          (* calculate_quantization_params(model, quantization_thresholds=...) *)
                          match h !! model with
                          | None => (Raise (ValueError "dangling reference"), w2)
                          | Some current =>
                              (calculate_quantization_params current 8
                                 (Some dict_for_quantization), w2)
                          end
                      end
                  end
              end
          end
      end
  end.
End Main.

(** ** Notions used to state and prove the properties *)

(** Equality of results up to a relation on the values returned. *)
Definition result_equiv {A} (R : A -> A -> Prop) (r1 r2 : result A) : Prop :=
  match r1, r2 with
  | Ok a1, Ok a2 => R a1 a2
  | Raise e1, Raise e2 => e1 = e2
  | _, _ => False
  end.

(** The values stored under [k] in a list of items, in order. *)
Definition collect {V} (k : string) (items : list (string * V)) : list V :=
  map snd (List.filter (fun kv => String.eqb (fst kv) k) items).

(** A dictionary entry after appending [vs] to it. *)
Definition appended {V} (entry : option (list V)) (vs : list V)
    : option (list V) :=
  match vs with
  | [] => entry
  | _ :: _ => Some (default [] entry ++ vs)
  end.

(** The key a dictionary lists first, and the first of two such keys. *)
Definition first_key {V} (d : dict V) : option string := head (dict_keys d).

Definition or_else (o1 o2 : option string) : option string :=
  match o1 with
  | Some k => Some k
  | None => o2
  end.

(** ** Concrete graphs, sessions and statistics used in the examples *)

Module Fixtures.
Definition attr (nm : string) (x : Q) : AttributeProto :=
  {| attr_name := nm; attr_f := x; attr_i := 0 |}.

Definition conv : NodeProto :=
  {| op_type := "Conv"; name := "conv1"; input := ["x"; "w"];
     output := ["y"]; attribute := [] |}.
Definition add : NodeProto :=
  {| op_type := "Add"; name := "add1"; input := ["y"; "b"];
     output := ["z"]; attribute := [] |}.
Definition relu : NodeProto :=
  {| op_type := "Relu"; name := "relu1"; input := ["y"];
     output := ["z"]; attribute := [] |}.
Definition clip (lo hi : Q) : NodeProto :=
  {| op_type := "Clip"; name := "clip1"; input := ["y"];
     output := ["z"]; attribute := [attr "min" lo; attr "max" hi] |}.

Definition model_of (nodes : list NodeProto) : ModelProto :=
  {| graph := {| node := nodes; graph_input := [];
                 graph_output := [make_tensor_value_info "z" FLOAT []] |} |}.

(** A session over the augmented [model_of [conv; relu]]: one original
    output and the two probes of [conv]; on input [n] the probes report
    the range [[lo n, lo n + 1]]. *)
Definition session_with (lo : nat -> Q) : InferenceSession nat :=
  {| get_inputs := [ {| arg_name := "x"; arg_shape := [1; 3; 2; 2]%Z |} ];
     get_outputs := [ {| arg_name := "z"; arg_shape := [] |};
                      {| arg_name := "y_ReduceMin"; arg_shape := [] |};
                      {| arg_name := "y_ReduceMax"; arg_shape := [] |} ];
     run := fun n => [Tensor; Scalar (lo n); Scalar (lo n + 1)] |}.

Definition session : InferenceSession nat :=
  session_with (fun n => inject_Z (Z.of_nat n)).

Definition files : gmap string ModelProto :=
  {[ "model.onnx" := model_of [conv; relu] ]}.

(** A model whose only node is a candidate. *)
Definition single_files : gmap string ModelProto :=
  {[ "single.onnx" := model_of [conv] ]}.
End Fixtures.

(** ** Further concrete inputs used in the examples *)

Module Cases.
(** A candidate that declares no output. *)
Definition conv_without_output : NodeProto :=
  {| op_type := "Conv"; name := "conv0"; input := ["x"; "w"];
     output := []; attribute := [] |}.

Definition matmul : NodeProto :=
  {| op_type := "MatMul"; name := "fc"; input := ["z"; "w2"];
     output := ["fc_out_0"]; attribute := [] |}.
End Cases.

Module Sessions.
(** A session that declares three outputs and a model file that declares
    none. *)
Definition bare_files : gmap string ModelProto :=
  {[ "bare.onnx" :=
       {| graph := {| node := [Fixtures.conv]; graph_input := [];
                      graph_output := [] |} |} ]}.

(** A session with no declared input. *)
Definition inputless : InferenceSession nat :=
  {| get_inputs := []; get_outputs := get_outputs Fixtures.session;
     run := run Fixtures.session |}.
End Sessions.

Module Graphs.
(** A [Clip] whose bounds are not given as attributes. *)
Definition clip_by_inputs : NodeProto :=
  {| op_type := "Clip"; name := "clip11"; input := ["y"; "lo"; "hi"];
     output := ["z"]; attribute := [] |}.
End Graphs.

(** ** [load_pb_file]

    The tensor file is taken as parsed: a [TensorProto] with its dimensions
    and its elements in row-major order.  Dimensions are natural numbers;
    numpy's inference of a dimension given as -1 is outside the model. *)

Record TensorProto : Type := {
  dims : list nat;
  float_data : list Q
}.

Record ndarray : Type := {
  arr_shape : list nat;      (* .shape *)
  arr_data : list Q          (* the elements, in row-major order *)
}.

Definition product (l : list nat) : nat := fold_right Nat.mul 1 l.

(** [a.reshape(newshape)]: the same elements under a shape of the same size. *)
Definition np_reshape (a : ndarray) (newshape : list nat) : result ndarray :=
  if Nat.eqb (product newshape) (length (arr_data a))
  then Ok {| arr_shape := newshape; arr_data := arr_data a |}
  else Raise (ValueError "cannot reshape array").

(** [numpy_helper.to_array(tensor)] *)
Definition to_array (tensor : TensorProto) : result ndarray :=
  np_reshape {| arr_shape := [length (float_data tensor)];
                arr_data := float_data tensor |}
             (dims tensor).

(** How [load_pb_file] ends: it returns the array, lets an exception
    through, or leaves through [sys.exit] with a message that gives the
    required size and the real shape. *)
Inductive pb_outcome : Type :=
  | PbReturn (inputs : ndarray)
  | PbRaise (e : exn)
  | PbExit (required real : list nat).

(** [load_pb_file(data_file_name, dataset_size, samples, channels, height, width)] *)
Definition load_pb_file (pb_files : gmap string TensorProto)
    (data_file_name : string) (dataset_size samples channels height width : nat)
    : pb_outcome :=
  match pb_files !! data_file_name with
  | None => PbRaise (FileNotFoundError data_file_name)
  | Some tensor =>
      match to_array tensor with
      | Raise e => PbRaise e
      | Ok inputs =>
          let shape := arr_shape inputs in
          match np_reshape inputs [dataset_size; samples; channels; height; width] with
          | Ok inputs => PbReturn inputs
          | Raise _ =>
              PbExit [dataset_size; samples; channels; height; width] shape
          end
      end
  end.

(** [[inputs[i] for i in range(len(inputs))]], the samples line 75 feeds to
    the session one by one. *)
Definition samples_of (inputs : ndarray) : result (list ndarray) :=
  match arr_shape inputs with
  | [] => Raise (TypeError "len() of unsized object")
  | n :: rest =>
      Ok (map (fun i => {| arr_shape := rest;
                           arr_data := take (product rest)
                                            (drop (i * product rest)
                                                  (arr_data inputs)) |})
              (seq 0 n))
  end.

Module Tensors.
Definition two_by_three : TensorProto :=
  {| dims := [2; 3]; float_data := [1; 2; 3; 4; 5; 6]%Q |}.

(** A tensor whose dimensions ask for four elements and that holds three. *)
Definition malformed : TensorProto :=
  {| dims := [2; 2]; float_data := [1; 2; 3]%Q |}.

Definition pb_files : gmap string TensorProto :=
  {[ "data.pb" := two_by_three; "bad.pb" := malformed ]}.

Definition augmented_files : gmap string ModelProto :=
  {[ "augmented_model.onnx" := Fixtures.model_of [Fixtures.conv] ]}.
End Tensors.

(** * The pipeline at run time

    The definitions above idealise two things: numbers are exact rationals,
    and a session returns on every input.  The module [Runtime] embeds
    lines 57-164 and 208-227 once more without these idealisations:

    - a number is a Python or numpy number object; comparisons see its IEEE
      754 value, which may be an infinity or NaN, and nothing is assumed of
      the results of subtraction, division and [np.float32] (class
      [Numbers]), so that what is proved holds whatever the rounding, the
      overflow and the underflow of the machine;
    - [session.run] may raise, and the exception leaves
      [get_intermediate_outputs] at once;
    - [main] is followed to its last line, the quantizer and the loading of
      the dataset being parameters.

    The payload [.f] of an attribute stays a rational: the bounds of a
    [Clip] are finite. *)
Module Runtime.

(** ** Floating-point values *)

(** What a comparison sees of a number: a finite value (plus and minus zero
    are both [Finite 0]), an infinity, or NaN. *)
Inductive float : Type :=
  | Finite (x : Q)
  | PosInf
  | NegInf
  | NaN.

(** [a < b] and [a == b]: false as soon as one side is NaN. *)
Definition float_lt (a b : float) : bool :=
  match a, b with
  | NaN, _ | _, NaN => false
  | _, NegInf => false
  | NegInf, _ => true
  | PosInf, _ => false
  | Finite _, PosInf => true
  | Finite x, Finite y => Qlt_bool x y
  end.

Definition float_eq (a b : float) : bool :=
  match a, b with
  | Finite x, Finite y => Qeq_bool x y
  | PosInf, PosInf | NegInf, NegInf => true
  | _, _ => false
  end.

(** [a <= b] between two values that are numbers. *)
Definition float_le (a b : float) : Prop :=
  a <> NaN /\ b <> NaN /\ float_lt b a = false.

(** [round(x)] on a float. *)
Definition py_round_float (x : float) : result Z :=
  match x with
  | Finite q => Ok (py_round q)
  | NaN => Raise (ValueError "cannot convert float NaN to integer")
  | PosInf | NegInf =>
      Raise (OverflowError "cannot convert float infinity to integer")
  end.

(** The number objects of Python and numpy: [int], [float], [np.float32]
    and the like.  Two objects with the same value need not behave alike in
    arithmetic (they may differ in type, or be the two zeros), so the
    operations act on objects; a comparison only sees the values.  Of the
    arithmetic nothing is assumed: [sub], [div] and [np_float32] are any
    functions, those of the machine among them.  Division never raises
    where the source divides: by the literal 255 at line 120, and by a
    numpy scalar at line 121, where numpy returns an infinity or NaN for a
    zero divisor.  The carrier may hold more numbers than the machine has;
    [of_int] is used at the literals 0, 1 and 255, [of_float] at the
    payloads of attributes. *)
Class Numbers : Type := {
  num : Type;
  val : num -> float;                 (* the value comparisons see *)
  of_int : Z -> num;                  (* an [int] literal *)
  of_float : Q -> num;                (* a Python float, by its value *)
  to_float : num -> num;              (* float(x) *)
  sub : num -> num -> num;            (* x - y *)
  div : num -> num -> num;            (* x / y *)
  np_float32 : num -> num;            (* np.float32(x) *)
  val_of_int : forall n, val (of_int n) = Finite (inject_Z n);
  val_of_float : forall x, val (of_float x) = Finite x;
  val_to_float : forall x, val (to_float x) = val x
}.

(** Arithmetic without rounding, extended to the infinities and NaN by the
    rules of IEEE 754: the numbers of the idealised model. *)
Definition exact_sub (a b : float) : float :=
  match a, b with
  | NaN, _ | _, NaN => NaN
  | Finite x, Finite y => Finite (x - y)
  | PosInf, PosInf | NegInf, NegInf => NaN
  | PosInf, _ | _, NegInf => PosInf
  | NegInf, _ | _, PosInf => NegInf
  end.

Definition exact_div (a b : float) : float :=
  match a, b with
  | NaN, _ | _, NaN => NaN
  | Finite x, Finite y =>
      if Qeq_bool y 0
      then (if Qeq_bool x 0 then NaN
            else if Qlt_bool x 0 then NegInf else PosInf)
      else Finite (x / y)
  | Finite _, _ => Finite 0
  | PosInf, Finite y => if Qlt_bool y 0 then NegInf else PosInf
  | NegInf, Finite y => if Qlt_bool y 0 then PosInf else NegInf
  | _, _ => NaN
  end.

Definition exact : Numbers :=
  {| num := float; val := fun x => x;
     of_int := fun n => Finite (inject_Z n); of_float := Finite;
     to_float := fun x => x;
     sub := exact_sub; div := exact_div; np_float32 := fun x => x;
     val_of_int := fun _ => eq_refl; val_of_float := fun _ => eq_refl;
     val_to_float := fun _ => eq_refl |}.

(** ** Stage 3: [calculate_scale_zeropoint] and [calculate_quantization_params] *)

Section Derivation.
Context {N : Numbers}.

(** [min(a, b)] and [max(a, b)]: the first argument unless the second is
    strictly smaller (larger), so the first argument when it is NaN. *)
Definition py_min (a b : num) : num := if float_lt (val b) (val a) then b else a.
Definition py_max (a b : num) : num := if float_lt (val a) (val b) then b else a.

(** Lines 103-104. *)
Definition zero_clamp (rmin rmax : num) : num * num :=
  (py_min rmin (of_int 0), py_max rmax (of_int 0)).

(** Lines 109-118. *)
Definition adjust_range (next_node : NodeProto) (rmin rmax : num)
    : result (num * num) :=
  '(rmin, rmax) ←
    (if String.eqb (op_type next_node) "Clip" then
       a0 ← subscript ClipAttribute (attribute next_node) 0;
       let clip_min := of_float (attr_f a0) in
       a1 ← subscript ClipAttribute (attribute next_node) 1;
       let clip_max := of_float (attr_f a1) in
       let rmin := if float_lt (val rmin) (val clip_min) then clip_min else rmin in
       let rmax := if float_lt (val clip_max) (val rmax) then clip_max else rmax in
       Ok (rmin, rmax)
     else Ok (rmin, rmax));
  let rmin :=
    if String.eqb (op_type next_node) "Relu"
    then (if float_lt (val rmin) (val (of_int 0)) then of_int 0 else rmin)
    else rmin in
  Ok (rmin, rmax).

(** Line 120. *)
Definition scale_of_range (rmin rmax : num) : num :=
  np_float32 (if negb (float_eq (val rmin) (val rmax))
              then div (sub rmax rmin) (of_int 255)
              else of_int 1).

(** Lines 121-122. *)
Definition zero_point_of_range (rmin scale : num) : result Z :=
  let initial_zero_point := div (sub (of_int 0) rmin) scale in
  rounded ← py_round_float
              (val (py_max (of_int 0) (py_min (of_int 255) initial_zero_point)));
  Ok (np_uint8 rounded).

(** [calculate_scale_zeropoint(node, next_node, rmin, rmax)] *)
Definition calculate_scale_zeropoint (nd next_node : NodeProto)
    (rmin rmax : num) : result (Z * num) :=
  let '(rmin, rmax) := zero_clamp rmin rmax in
  '(rmin, rmax) ← adjust_range next_node rmin rmax;
  let scale := scale_of_range rmin rmax in
  zero_point ← zero_point_of_range rmin scale;
  Ok (zero_point, scale).

(** Lines 157-162. *)
Fixpoint params_loop (nodes : list NodeProto)
    (quantization_thresholds : dict (num * num))
    (todo : list (nat * NodeProto)) (quantization_params : dict (Z * num))
    : result (dict (Z * num)) :=
  match todo with
  | [] => Ok quantization_params
  | (index, nd) :: rest =>
      node_output_name ← subscript NodeOutput0 (output nd) 0;
      if dict_mem quantization_thresholds node_output_name then
        node_thresholds ← dict_item quantization_thresholds node_output_name;
        next_node ← subscript NextNode nodes (index + 1);
        node_params ← calculate_scale_zeropoint nd next_node
                        (fst node_thresholds) (snd node_thresholds);
        params_loop nodes quantization_thresholds rest
          (dict_set quantization_params node_output_name node_params)
      else
        params_loop nodes quantization_thresholds rest quantization_params
  end.

(** [calculate_quantization_params(model, nbits, quantization_thresholds)] *)
Definition calculate_quantization_params (model : ModelProto) (nbits : Z)
    (quantization_thresholds : option (dict (num * num)))
    : result (dict (Z * num)) :=
  if negb (nbits =? 8)%Z then
    Raise (ValueError "Unknown value for nbits. only 8 bit quantization is currently supported")
  else
    match quantization_thresholds with
    | None =>
        Raise (ValueError "output quantization threshold is required to calculate quantization thresholds")
    | Some thresholds =>
        params_loop (node (graph model)) thresholds
          (enumerate (node (graph model))) []
    end.
End Derivation.

(** ** Stage 2: [get_intermediate_outputs] *)

(** What a session returns for one declared output: an array holding a
    single number, or an array of several elements. *)
Inductive value {N : Numbers} : Type :=
  | Scalar (x : num)
  | Tensor.

(** A session whose [run] returns the values of the declared outputs or
    raises. *)
Record InferenceSession {N : Numbers} (tensor : Type) : Type := {
  get_inputs : list NodeArg;
  get_outputs : list NodeArg;
  run : tensor -> result (list value)
}.
Arguments get_inputs {N tensor} _.
Arguments get_outputs {N tensor} _.
Arguments run {N tensor} _ _.

Section Collector.
Context {N : Numbers} {tensor : Type}.

(** [y < m] used as a condition, on two arrays. *)
Definition value_lt (y m : value) : result bool :=
  match y, m with
  | Scalar a, Scalar b => Ok (float_lt (val a) (val b))
  | _, _ => Raise ambiguous_truth
  end.

(** The builtins [min(l)] and [max(l)]: a scan that keeps the first
    element until a strictly smaller (larger) one comes. *)
Definition min_of (l : list value) : result value :=
  match l with
  | [] => Raise (ValueError "min() arg is an empty sequence")
  | x :: rest =>
      rfold_left (fun m y : value => c ← value_lt y m; Ok (if c : bool then y else m))
                 rest x
  end.

Definition max_of (l : list value) : result value :=
  match l with
  | [] => Raise (ValueError "max() arg is an empty sequence")
  | x :: rest =>
      rfold_left (fun m y : value => c ← value_lt m y; Ok (if c : bool then y else m))
                 rest x
  end.

(** [float(v)] *)
Definition py_float (v : value) : result num :=
  match v with
  | Scalar x => Ok (to_float x)
  | Tensor => Raise (TypeError "only size-1 arrays can be converted to Python scalars")
  end.

(** Lines 90-92. *)
Fixpoint naive_pairs (clean_merged_dict : dict (list value))
    (added_node_output_names : list string) : result (list (num * num)) :=
  match added_node_output_names with
  | [] => Ok []
  | min_name :: rest =>
      mins ← dict_item clean_merged_dict min_name;
      lo ← min_of mins;
      lo ← py_float lo;
      match rest with
      | [] => Raise (IndexError ProbePartner)
      | max_name :: rest' =>
          maxs ← dict_item clean_merged_dict max_name;
          hi ← max_of maxs;
          hi ← py_float hi;
          pairs ← naive_pairs clean_merged_dict rest';
          Ok ((lo, hi) :: pairs)
      end
  end.

(** [session.run([], {input_name: x})]: the call is logged, then returns
    or raises. *)
Definition session_run (session : InferenceSession tensor)
    (input_name : string) (x : tensor) (calls : list tensor)
    : result (list value) * list tensor :=
  (run session x, calls ++ [x]).

(** Line 75: the comprehension stops at the first call that raises. *)
Fixpoint run_samples (session : InferenceSession tensor)
    (input_name : string) (inputs : list tensor) (calls : list tensor)
    : result (list (list value)) * list tensor :=
  match inputs with
  | [] => (Ok [], calls)
  | x :: rest =>
      match session_run session input_name x calls with
      | (Raise e, calls) => (Raise e, calls)
      | (Ok outs, calls) =>
          match run_samples session input_name rest calls with
          | (Raise e, calls) => (Raise e, calls)
          | (Ok more, calls) => (Ok (outs :: more), calls)
          end
      end
  end.

(** Lines 78-97. *)
Definition aggregate (session : InferenceSession tensor)
    (num_model_outputs : nat) (intermediate_outputs : list (list value))
    (calib_mode : string) : result (dict (num * num)) :=
  first ← subscript FirstSnapshot intermediate_outputs 0;
  node_output_names ←
    mapM (fun i => arg_name <$> subscript SessionOutputs (get_outputs session) i)
         (seq 0 (length first));
  let output_dicts := map (dict_zip node_output_names) intermediate_outputs in
  let merged_dict := merge_dicts output_dicts in
  let added_node_output_names := drop num_model_outputs node_output_names in
  let node_names :=
    map (rpartition0 "_"%char) (even_positions added_node_output_names) in
  let clean_merged_dict := clean_dict merged_dict in
  pairs ←
    (if String.eqb calib_mode "naive"
     then naive_pairs clean_merged_dict added_node_output_names
     else Raise unknown_calib_mode);
  let final_dict := dict_zip node_names pairs in
  Ok final_dict.

(** [get_intermediate_outputs(model_path, session, inputs, calib_mode)] *)
Definition get_intermediate_outputs (files : gmap string ModelProto)
    (model_path : string) (session : InferenceSession tensor)
    (inputs : list tensor) (calib_mode : string) (calls : list tensor)
    : result (dict (num * num)) * list tensor :=
  match onnx_load files model_path with
  | Raise e => (Raise e, calls)
  | Ok model =>
      let num_model_outputs := length (graph_output (graph model)) in
      match subscript SessionInputs (get_inputs session) 0 with
      | Raise e => (Raise e, calls)
      | Ok input0 =>
          let input_name := arg_name input0 in
          match run_samples session input_name inputs calls with
          | (Raise e, calls) => (Raise e, calls)
          | (Ok intermediate_outputs, calls) =>
              (aggregate session num_model_outputs intermediate_outputs
                 calib_mode, calls)
          end
      end
  end.
End Collector.

(** ** [main], lines 208-227 *)

Section Main.
Context {N : Numbers} {tensor : Type}.
(** The inference engine, the loading of the dataset (lines 219-222:
    [load_batch] or [load_pb_file], given the shape of the session's
    input) and the quantizer of line 226. *)
Variable engine : ModelProto -> InferenceSession tensor.
Variable load_inputs : Z * Z * Z * Z -> result (list tensor).
Variable quantize : ModelProto -> dict (Z * num) -> result ModelProto.

Definition main (model_path output_model_path calib_mode : string)
    (w : world tensor) : result unit * world tensor :=
  (* model = onnx.load(model_path) *)
  match onnx_load (w_files w) model_path with
  | Raise e => (Raise e, w)
  | Ok loaded =>
      let model : ref := length (w_heap w) in
      let h := w_heap w ++ [loaded] in
      (* augmented_model = augment_graph(model) *)
      match augment_graph model h with
      | (Raise e, h) => (Raise e, Build_world h (w_files w) (w_calls w))
      | (Ok augmented_model, h) =>
          (* onnx.save(augmented_model, augmented_model_path) *)
          match h !! augmented_model with
          | None =>
              (Raise (ValueError "dangling reference"),
               Build_world h (w_files w) (w_calls w))
          | Some saved =>
              let files := <[augmented_model_path := saved]> (w_files w) in
              let w1 := Build_world h files (w_calls w) in
              (* session = onnxruntime.InferenceSession(augmented_model_path, None) *)
              match onnx_load files augmented_model_path with
              | Raise e => (Raise e, w1)
              | Ok served =>
                  let session := engine served in
                  match (input0 ← subscript SessionInputs (get_inputs session) 0;
                         shape ← unpack4 (arg_shape input0);
                         load_inputs shape) with
                  | Raise e => (Raise e, w1)
                  | Ok inputs =>
                      (* dict_for_quantization = get_intermediate_outputs(...) *)
                      match get_intermediate_outputs files model_path session
                              inputs calib_mode (w_calls w) with
                      | (Raise e, calls) => (Raise e, Build_world h files calls)
                      | (Ok dict_for_quantization, calls) =>
                          let w2 := Build_world h files calls in
                          (* calculate_quantization_params(model, quantization_thresholds=...) *)
                          match h !! model with
                          | None => (Raise (ValueError "dangling reference"), w2)
                          | Some current =>
                              match (quantization_params_dict ←
                                       calculate_quantization_params current 8
                                         (Some dict_for_quantization);
                                     (* quantize(onnx.load(model_path), ...) *)
                                     reloaded ← onnx_load files model_path;
                                     quantize reloaded quantization_params_dict) with
                              | Raise e => (Raise e, w2)
                              | Ok calibrated_quantized_model =>
                                  (* onnx.save(calibrated_quantized_model, output_model_path) *)
                                  (Ok (),
                                   Build_world h
                                     (<[output_model_path := calibrated_quantized_model]> files)
                                     calls)
                              end
                          end
                      end
                  end
              end
          end
      end
  end.
End Main.

(** ** Notions used to state the properties *)

Section Notions.
Context {N : Numbers}.

(** A value that is not a NaN scalar. *)
Definition not_nan (v : value) : Prop :=
  match v with
  | Scalar x => val x <> NaN
  | Tensor => True
  end.

(** Two number objects that Python's [==] equates. *)
Definition num_equiv (a b : num) : Prop := float_eq (val a) (val b) = true.

Definition value_equiv (v1 v2 : value) : Prop :=
  match v1, v2 with
  | Scalar a, Scalar b => num_equiv a b
  | Tensor, Tensor => True
  | _, _ => False
  end.

Definition range_equiv (p1 p2 : num * num) : Prop :=
  num_equiv (fst p1) (fst p2) /\ num_equiv (snd p1) (snd p2).

(** Two statistics dictionaries with the same keys in the same order and
    ranges that [==] equates under each key. *)
Definition stats_equiv (d1 d2 : dict (num * num)) : Prop :=
  Forall2 (fun kv1 kv2 => fst kv1 = fst kv2 /\ range_equiv (snd kv1) (snd kv2))
          d1 d2.

(** Two merged dictionaries that hold, under every key, the same values up
    to their order. *)
Definition lookups_agree (d d' : dict (list value)) : Prop :=
  forall k, option_Forall2 (≡ₚ) (dict_get d k) (dict_get d' k).

(** One step of the scan [min] and [max] make over a list: keep [m] or
    replace it by [y], as [lt] decides on their values. *)
Definition extremum_step (lt : float -> float -> bool) (m y : value)
    : result value :=
  match y, m with
  | Scalar a, Scalar b => Ok (if lt (val a) (val b) then y else m)
  | _, _ => Raise ambiguous_truth
  end.

(** What a run returned, for a run that returned. *)
Definition outputs_of {tensor} (session : InferenceSession tensor)
    (x : tensor) : list value :=
  match run session x with
  | Ok outs => outs
  | Raise _ => []
  end.
End Notions.
End Runtime.

(** ** The idealised layer inside the run-time layer

    Rationals are the finite values of the exact numbers, and a session
    that always returns is a session that never raises. *)

Definition inj_range (p : Q * Q) : Runtime.float * Runtime.float :=
  (Runtime.Finite (fst p), Runtime.Finite (snd p)).

Definition inj_params (p : Z * Q) : Z * Runtime.float :=
  (fst p, Runtime.Finite (snd p)).

Definition inj_dict {A B} (f : A -> B) (d : dict A) : dict B :=
  map (fun kv => (fst kv, f (snd kv))) d.

Definition inj_value (v : value) : Runtime.value (N := Runtime.exact) :=
  match v with
  | Scalar x => Runtime.Scalar (N := Runtime.exact) (Runtime.Finite x)
  | Tensor => Runtime.Tensor
  end.

Definition inj_session {tensor} (session : InferenceSession tensor)
    : Runtime.InferenceSession (N := Runtime.exact) tensor :=
  {| Runtime.get_inputs := get_inputs session;
     Runtime.get_outputs := get_outputs session;
     Runtime.run := fun x => Ok (map inj_value (run session x)) |}.

(** ** Concrete inputs for the run-time model *)

Module Runs.
Import Runtime.

(** The session of [Fixtures.session_with], which fails on the inputs
    that [fails] selects and reports NaN as minimum on those that [nans]
    selects. *)
Definition session_with (fails nans : nat -> bool)
    : InferenceSession (N := exact) nat :=
  {| get_inputs := [ {| arg_name := "x"; arg_shape := [1; 3; 2; 2]%Z |} ];
     get_outputs := [ {| arg_name := "z"; arg_shape := [] |};
                      {| arg_name := "y_ReduceMin"; arg_shape := [] |};
                      {| arg_name := "y_ReduceMax"; arg_shape := [] |} ];
     run := fun n =>
       if fails n then Raise (OrtError "Non-zero status code returned while running Conv node")
       else Ok [Tensor;
                Scalar (N := exact)
                  (if nans n then NaN else Finite (inject_Z (Z.of_nat n)));
                Scalar (N := exact) (Finite (inject_Z (Z.of_nat n) + 1))] |}.

Definition never (n : nat) : bool := false.

(** Every run returns numbers. *)
Definition session : InferenceSession (N := exact) nat :=
  session_with never never.

(** The run on input 1 raises. *)
Definition failing : InferenceSession (N := exact) nat :=
  session_with (Nat.eqb 1) never.

(** The run on input 0 reports NaN as the minimum. *)
Definition with_nan : InferenceSession (N := exact) nat :=
  session_with never (Nat.eqb 0).

(** A run of [main]: the engine serves [session] whatever the model, the
    dataset has three samples, and the quantizer returns the model it is
    given. *)
Definition engine (m : ModelProto) : InferenceSession (N := exact) nat :=
  session.
Definition load_inputs (shape : Z * Z * Z * Z) : result (list nat) :=
  Ok [3; 1; 2].
Definition quantize (m : ModelProto) (params : dict (Z * float))
    : result ModelProto := Ok m.

End Runs.

(** * Properties *)

(** ** Comparisons, [min], [max] and [round] on numbers *)

Lemma Qlt_bool_true (x y : Q) : Qlt_bool x y = true <-> (x < y)%Q.
Proof.
  unfold Qlt_bool. rewrite negb_true_iff, <- not_true_iff_false, Qle_bool_iff.
  split; [apply Qnot_le_lt | apply Qlt_not_le].
Qed.

Lemma Qlt_bool_false (x y : Q) : Qlt_bool x y = false <-> (y <= x)%Q.
Proof.
  unfold Qlt_bool. rewrite negb_false_iff. apply Qle_bool_iff.
Qed.

(** Case analysis on a comparison, with the order as a hypothesis. *)
Ltac case_Qlt x y :=
  let H := fresh "Hlt" in
  destruct (Qlt_bool x y) eqn:H;
  [apply Qlt_bool_true in H | apply Qlt_bool_false in H].

Lemma py_round_between (lo hi : Z) (x : Q) :
  (inject_Z lo <= x)%Q -> (x <= inject_Z hi)%Q ->
  (lo <= py_round x <= hi)%Z.
Proof.
  intros Hlo Hhi.
  assert (Hfl : (lo <= Qfloor x)%Z).
  { pose proof (Qfloor_resp_le _ _ Hlo) as H. by rewrite Qfloor_Z in H. }
  assert (Hfh : (Qfloor x <= hi)%Z).
  { pose proof (Qfloor_resp_le _ _ Hhi) as H. by rewrite Qfloor_Z in H. }
  pose proof (Qfloor_le x) as Hle.
  unfold py_round.
  case_Qlt (x - inject_Z (Qfloor x))%Q (1 # 2)%Q; [lia|].
  assert (Hne : Qfloor x <> hi).
  { intros Heq. rewrite Heq in *. lra. }
  repeat match goal with |- context [if ?b then _ else _] => destruct b end; lia.
Qed.

(** ** The error monad and subscripts *)

Lemma subscript_Ok {A} site (l : list A) i a :
  subscript site l i = Ok a <-> l !! i = Some a.
Proof. unfold subscript. destruct (l !! i); split; congruence. Qed.

Lemma subscript_raises {A} site (l : list A) i e :
  subscript site l i = Raise e -> e = IndexError site.
Proof. unfold subscript. destruct (l !! i); congruence. Qed.

Lemma subscript_head {A} site (x : A) (l : list A) :
  subscript site (x :: l) 0 = Ok x.
Proof. reflexivity. Qed.


(** ** Dictionaries and [enumerate] *)

Lemma dict_get_set {V} (d : dict V) (k k' : string) (v : V) :
  dict_get (dict_set d k v) k'
  = if String.eqb k k' then Some v else dict_get d k'.
Proof.
  induction d as [|[k0 v0] d IH]; simpl.
  - reflexivity.
  - destruct (String.eqb k0 k) eqn:E0; simpl.
    + apply String.eqb_eq in E0 as ->. by destruct (String.eqb k k').
    + rewrite IH. destruct (String.eqb k0 k') eqn:E1; [|done].
      apply String.eqb_eq in E1 as ->. by rewrite String.eqb_sym, E0.
Qed.

Lemma dict_get_filter_ne {V} (d : dict V) (first k : string) :
  dict_get (List.filter (fun kv => negb (String.eqb (fst kv) first)) d) k
  = if String.eqb k first then None else dict_get d k.
Proof.
  induction d as [|[k0 v0] d IH]; simpl.
  - by destruct (String.eqb k first).
  - destruct (String.eqb k0 first) eqn:E0; simpl.
    + rewrite IH. destruct (String.eqb k first) eqn:E1; [done|].
      apply String.eqb_eq in E0 as ->. by rewrite String.eqb_sym, E1.
    + rewrite IH. destruct (String.eqb k0 k) eqn:E1; [|done].
      apply String.eqb_eq in E1 as ->. by rewrite E0.
Qed.

Lemma dict_set_Forall {V} (P : string * V -> Prop) (d : dict V) k v :
  Forall P d -> P (k, v) ->
  (forall k' v', P (k', v') -> String.eqb k' k = true -> P (k', v)) ->
  Forall P (dict_set d k v).
Proof.
  intros Hd Hkv Hrepl. induction Hd as [|[k' v'] d' Hx Hd' IH]; simpl.
  - by constructor.
  - destruct (String.eqb k' k) eqn:E; constructor; eauto.
Qed.

Lemma dict_mem_item {V} (d : dict V) k :
  dict_mem d k = true -> exists v, dict_item d k = Ok v.
Proof.
  unfold dict_mem, dict_item. destruct (dict_get d k); [eauto | discriminate].
Qed.

Lemma enumerate_from_app {A} (l1 l2 : list A) (start : nat) :
  enumerate_from start (l1 ++ l2)
  = enumerate_from start l1 ++ enumerate_from (start + length l1) l2.
Proof.
  revert start. induction l1 as [|x l1 IH]; intros start; simpl.
  - by rewrite Nat.add_0_r.
  - rewrite IH. do 3 f_equal. lia.
Qed.

Lemma enumerate_from_elem {A} (l : list A) (start i : nat) (x : A) :
  (i, x) ∈ enumerate_from start l
  <-> start <= i /\ l !! (i - start) = Some x.
Proof.
  revert start. induction l as [|y l IH]; intros start; simpl.
  - split; [by intros ?%elem_of_nil | by intros [_ ?]].
  - rewrite elem_of_cons, IH. split.
    + intros [[= -> ->]|[Hle Hx]].
      * split; [lia|]. by rewrite Nat.sub_diag.
      * split; [lia|]. by replace (i - start) with (S (i - S start)) by lia.
    + intros [Hle Hx]. destruct (decide (i = start)) as [->|Hne].
      * left. rewrite Nat.sub_diag in Hx. simpl in Hx. congruence.
      * right. split; [lia|].
        by replace (i - start) with (S (i - S start)) in Hx by lia.
Qed.

Lemma enumerate_elem {A} (l : list A) (i : nat) (x : A) :
  (i, x) ∈ enumerate l <-> l !! i = Some x.
Proof.
  unfold enumerate. rewrite enumerate_from_elem, Nat.sub_0_r.
  split; [by intros [_ ?] | split; [lia | done]].
Qed.

Lemma enumerate_from_NoDup {A} (l : list A) (start : nat) :
  NoDup (map fst (enumerate_from start l)).
Proof.
  revert start. induction l as [|y l IH]; intros start; simpl.
  - constructor.
  - constructor; [|apply IH].
    intros ((j & z) & Hj & Hin%enumerate_from_elem)%list_elem_of_fmap.
    simpl in Hj. lia.
Qed.




(** ** Range adjustment to the successor node *)

Lemma adjust_range_plain (next_node : NodeProto) (lo hi : Q) :
  op_type next_node <> "Clip" -> op_type next_node <> "Relu" ->
  adjust_range next_node lo hi = Ok (lo, hi).
Proof.
  intros HC HR. unfold adjust_range.
  apply String.eqb_neq in HC, HR. by rewrite HC, HR.
Qed.


Lemma adjust_range_raises (next_node : NodeProto) (lo hi : Q) (e : exn) :
  adjust_range next_node lo hi = Raise e -> e = IndexError ClipAttribute.
Proof.
  unfold adjust_range.
  destruct (String.eqb (op_type next_node) "Clip"); [|discriminate].
  unfold subscript.
  destruct (attribute next_node !! 0); simpl; [|congruence].
  destruct (attribute next_node !! 1); simpl; [discriminate|congruence].
Qed.

Lemma calculate_scale_zeropoint_raises (nd next_node : NodeProto)
    (rmin rmax : Q) (e : exn) :
  calculate_scale_zeropoint nd next_node rmin rmax = Raise e ->
  e = IndexError ClipAttribute.
Proof.
  unfold calculate_scale_zeropoint, zero_clamp.
  destruct (adjust_range _ _ _) as [[lo hi]|e'] eqn:E; simpl; [discriminate|].
  intros [= <-]. by apply adjust_range_raises in E.
Qed.


(** ** The loop of [calculate_quantization_params] *)

Lemma params_loop_app nodes th l1 l2 params :
  params_loop nodes th (l1 ++ l2) params
  = params_loop nodes th l1 params ≫= params_loop nodes th l2.
Proof.
  revert params. induction l1 as [|[index nd] l1 IH]; intros params; simpl.
  - reflexivity.
  - destruct (subscript NodeOutput0 (output nd) 0) as [o|e]; simpl; [|done].
    destruct (dict_mem th o); [|apply IH].
    destruct (dict_item th o) as [t|e]; simpl; [|done].
    destruct (subscript NextNode nodes (index + 1)) as [nx|e]; simpl; [|done].
    destruct (calculate_scale_zeropoint nd nx (fst t) (snd t)) as [p|e]; simpl; [|done].
    apply IH.
Qed.

Lemma params_loop_raises nodes th todo params e :
  params_loop nodes th todo params = Raise e -> exists site, e = IndexError site.
Proof.
  revert params. induction todo as [|[index nd] todo IH]; intros params; simpl.
  - discriminate.
  - destruct (subscript NodeOutput0 (output nd) 0) as [o|e0] eqn:E0; rsimpl.
    2:{ intros [= <-]. apply subscript_raises in E0. eauto. }
    destruct (dict_mem th o) eqn:Hmem; [|apply IH].
    destruct (dict_mem_item _ _ Hmem) as [t ->]. rsimpl.
    destruct (subscript NextNode nodes (index + 1)) as [nx|e1] eqn:E1; rsimpl.
    2:{ intros [= <-]. apply subscript_raises in E1. eauto. }
    destruct (calculate_scale_zeropoint nd nx (fst t) (snd t)) as [p|e'] eqn:E;
      rsimpl; [apply IH|].
    intros [= <-]. apply calculate_scale_zeropoint_raises in E. eauto.
Qed.


(** ** The graph parameter derivation works on *)

(** The rest of the loop leaves alone the entry of a tensor that is the
    first output of none of the nodes still to visit. *)
Lemma params_loop_frame nodes th todo params params' (o : string) :
  params_loop nodes th todo params = Ok params' ->
  (forall j nd', (j, nd') ∈ todo -> head (output nd') <> Some o) ->
  dict_get params' o = dict_get params o.
Proof.
  revert params. induction todo as [|[j nd'] todo IH]; intros params; simpl.
  - by intros [= <-].
  - intros Hloop Hother.
    assert (Hrest : forall j0 nd0, (j0, nd0) ∈ todo -> head (output nd0) <> Some o).
    { intros j0 nd0 Hin. apply (Hother j0). by right. }
    specialize (Hother j nd' (list_elem_of_here _ _)).
    destruct (output nd') as [|o' os]; [done|].
    rewrite subscript_head in Hloop. rsimpl in Hloop.
    destruct (dict_mem th o'); [|by apply IH].
    destruct (dict_item th o') as [t|e]; [|done]. rsimpl in Hloop.
    destruct (subscript NextNode nodes (j + 1)) as [next|e]; [|done].
    rsimpl in Hloop.
    destruct (calculate_scale_zeropoint nd' next t.1 t.2) as [p|e]; [|done].
    rsimpl in Hloop.
    rewrite (IH _ Hloop Hrest), dict_get_set.
    destruct (String.eqb o' o) eqn:E; [|done].
    apply String.eqb_eq in E. simpl in Hother. congruence.
Qed.

Lemma params_loop_successor nodes th todo params params'
    (i : nat) (nd : NodeProto) (o : string) :
  params_loop nodes th todo params = Ok params' ->
  NoDup (map fst todo) ->
  (i, nd) ∈ todo -> head (output nd) = Some o -> dict_mem th o = true ->
  exists next_node t p,
    nodes !! (i + 1) = Some next_node
    /\ dict_get th o = Some t
    /\ calculate_scale_zeropoint nd next_node (fst t) (snd t) = Ok p
    /\ ((forall j nd', (j, nd') ∈ todo -> j <> i -> head (output nd') <> Some o) ->
        dict_get params' o = Some p).
Proof.
  intros Hloop Hnd Hin Ho Hmem. revert params Hloop.
  induction todo as [|[j nd'] todo IH]; intros params Hloop.
  - by apply elem_of_nil in Hin.
  - apply NoDup_cons in Hnd as [Hj Hnd]. simpl in Hloop.
    apply elem_of_cons in Hin as [[= <- <-]|Hin].
    + destruct (output nd) as [|o' os]; [done|]. injection Ho as ->.
      rewrite subscript_head in Hloop. rsimpl in Hloop. rewrite Hmem in Hloop.
      unfold dict_item in Hloop.
      destruct (dict_get th o) as [t|] eqn:Et; [|done]. rsimpl in Hloop.
      destruct (subscript NextNode nodes (i + 1)) as [next|e] eqn:En; [|done].
      rsimpl in Hloop.
      destruct (calculate_scale_zeropoint nd next t.1 t.2) as [p|e] eqn:Ep; [|done].
      rsimpl in Hloop.
      exists next, t, p. apply subscript_Ok in En. repeat split; try done.
      intros Hother. rewrite (params_loop_frame _ _ _ _ _ o Hloop).
      * rewrite dict_get_set. by rewrite String.eqb_refl.
      * intros j nd' Hin'. apply (Hother j); [by right|].
        intros ->. apply Hj. apply list_elem_of_fmap. by exists (i, nd').
    + assert (Hrest : exists params1, params_loop nodes th todo params1 = Ok params').
      { destruct (subscript NodeOutput0 (output nd') 0) as [o'|e]; [|done].
        rsimpl in Hloop. destruct (dict_mem th o'); [|eauto].
        destruct (dict_item th o') as [t|e]; [|done]. rsimpl in Hloop.
        destruct (subscript NextNode nodes (j + 1)) as [next|e]; [|done].
        rsimpl in Hloop.
        destruct (calculate_scale_zeropoint nd' next t.1 t.2) as [p|e]; [|done].
        eauto. }
      destruct Hrest as [params1 Hloop1].
      destruct (IH Hnd Hin params1 Hloop1) as (next & t & p & Hn & Ht & Hp & Hlast).
      exists next, t, p. repeat split; try done.
      intros Hother. apply Hlast. intros j0 nd0 Hin0. apply Hother. by right.
Qed.

(** ** Properties of graph augmentation *)

Lemma augment_loop_spec (nodes added_nodes : list NodeProto)
    (added_outputs : list ValueInfoProto) :
  Forall (fun nd => eligible nd = true -> output nd <> []) nodes ->
  augment_loop nodes added_nodes added_outputs
  = Ok (added_nodes
          ++ flat_map (fun nd => [min_probe_node nd; max_probe_node nd])
                      (List.filter eligible nodes),
        added_outputs
          ++ flat_map (fun nd => [min_probe_output nd; max_probe_output nd])
                      (List.filter eligible nodes)).
Proof.
  intros Hwf. revert added_nodes added_outputs.
  induction Hwf as [|nd nodes Hnd Hwf IH]; intros added_nodes added_outputs.
  - simpl. by rewrite !app_nil_r.
  - cbn [augment_loop List.filter]. fold (eligible nd).
    destruct (eligible nd) eqn:E; [|apply IH].
    destruct (output nd) as [|o os] eqn:Eo; [by destruct Hnd|].
    rewrite subscript_head. rsimpl.
    cbn [make_node output]. rewrite !subscript_head. rsimpl.
    rewrite IH. cbn [flat_map].
    unfold min_probe_node, max_probe_node, min_probe_output, max_probe_output,
      primary_output. rewrite Eo. cbn [head default].
    by rewrite <- !app_assoc.
Qed.

Lemma flat_map_pair_length {A B} (f g : A -> B) (l : list A) :
  length (flat_map (fun x => [f x; g x]) l) = 2 * length l.
Proof. induction l as [|x l IH]; simpl; lia. Qed.

(** C2.  On a graph whose candidate nodes each have an output to probe,
    [augment_graph] returns the model with [2 * E] more declared outputs,
    [E] being the number of [Conv] and [MatMul] nodes: after the original
    outputs come, candidate by candidate in node-list order, the min-probe
    output immediately followed by the max-probe output. *)
Theorem augment_graph_outputs (h : heap) (model : ref) (m : ModelProto) :
  h !! model = Some m ->
  Forall (fun nd => eligible nd = true -> output nd <> []) (node (graph m)) ->
  exists m',
    augment_graph model h = (Ok model, <[model := m']> h)
    /\ length (graph_output (graph m'))
       = length (graph_output (graph m))
         + 2 * length (List.filter eligible (node (graph m)))
    /\ graph_output (graph m')
       = graph_output (graph m)
         ++ flat_map (fun nd => [min_probe_output nd; max_probe_output nd])
                     (List.filter eligible (node (graph m))).
Proof.
  intros Hm Hwf. unfold augment_graph. rewrite Hm.
  rewrite (augment_loop_spec _ [] [] Hwf). cbv beta iota.
  eexists. split; [reflexivity|]. simpl.
  split; [|reflexivity].
  by rewrite length_app, flat_map_pair_length.
Qed.

Lemma augment_graph_outputs_witness :
  exists m',
    augment_graph 0 [Fixtures.model_of [Fixtures.conv; Fixtures.relu]]
    = (Ok 0, [m'])
    /\ length (graph_output (graph m')) = 3
    /\ graph_output (graph m')
       = [make_tensor_value_info "z" FLOAT [];
          make_tensor_value_info "y_ReduceMin" FLOAT [];
          make_tensor_value_info "y_ReduceMax" FLOAT []].
Proof.
  apply (augment_graph_outputs
           [Fixtures.model_of [Fixtures.conv; Fixtures.relu]] 0
           (Fixtures.model_of [Fixtures.conv; Fixtures.relu]) eq_refl).
  repeat constructor; discriminate.
Defined.

(** C8 (as amended).  [augment_graph] extends the model it is given in
    place and returns that same object: afterwards the object's node list is
    the former node list followed by the probe nodes and its output list the
    former outputs followed by the probe outputs, nothing being removed or
    reordered, and every other loaded model is untouched; with no candidate
    node nothing is appended and the store is left as it was. *)
Theorem augment_graph_in_place (h : heap) (model : ref) (m : ModelProto) :
  h !! model = Some m ->
  Forall (fun nd => eligible nd = true -> output nd <> []) (node (graph m)) ->
  exists added_nodes added_outputs h',
    augment_graph model h = (Ok model, h')
    /\ h' = <[model := extend_graph m added_nodes added_outputs]> h
    /\ (exists m', h' !! model = Some m'
          /\ node (graph m') = node (graph m) ++ added_nodes
          /\ graph_output (graph m') = graph_output (graph m) ++ added_outputs
          /\ graph_input (graph m') = graph_input (graph m))
    /\ length h' = length h
    /\ (forall other, other <> model -> h' !! other = h !! other)
    /\ (List.filter eligible (node (graph m)) = [] ->
        added_nodes = [] /\ added_outputs = [] /\ h' = h).
Proof.
  intros Hm Hwf. unfold augment_graph. rewrite Hm.
  rewrite (augment_loop_spec _ [] [] Hwf). cbv beta iota.
  eexists _, _, _. split; [reflexivity|]. split; [reflexivity|].
  assert (Hlt : model < length h) by (by eapply lookup_lt_Some).
  repeat apply conj.
  - eexists. split; [by apply list_lookup_insert_eq|]. by simpl.
  - by rewrite length_insert.
  - intros other Hne. by apply list_lookup_insert_ne.
  - intros Hnone. rewrite Hnone. simpl. repeat split.
    unfold extend_graph. rewrite !app_nil_r.
    destruct m as [[ns gi go]]. simpl. by apply list_insert_id.
Qed.

Lemma augment_graph_in_place_witness :
  exists h',
    augment_graph 0 [Fixtures.model_of [Fixtures.add; Fixtures.relu]] = (Ok 0, h')
    /\ h' = [Fixtures.model_of [Fixtures.add; Fixtures.relu]].
Proof.
  destruct (augment_graph_in_place
              [Fixtures.model_of [Fixtures.add; Fixtures.relu]] 0
              (Fixtures.model_of [Fixtures.add; Fixtures.relu]) eq_refl)
    as (ns & os & h' & Hrun & _ & _ & _ & _ & Hnone).
  { repeat constructor; discriminate. }
  exists h'. split; [exact Hrun|]. by destruct (Hnone eq_refl) as (_ & _ & ->).
Defined.

(** C8, refuted as stated: the reference returned is the one passed in, no
    new graph value exists afterwards, and the graph behind the caller's
    reference has changed. *)
Lemma augment_graph_pure_counterexample :
  let original := Fixtures.model_of [Fixtures.conv; Fixtures.relu] in
  exists h',
    augment_graph 0 [original] = (Ok 0, h')
    /\ length h' = 1
    /\ h' !! 0 <> Some original
    /\ (fun m => node (graph m)) <$> h' !! 0
       = Some [Fixtures.conv; Fixtures.relu;
               min_probe_node Fixtures.conv; max_probe_node Fixtures.conv].
Proof.
  eexists. split; [reflexivity|]. split; [reflexivity|].
  split; [intros [=] | reflexivity].
Qed.

(** ** Properties of statistics aggregation *)

Lemma run_samples_spec {tensor} (session : InferenceSession tensor)
    (input_name : string) (inputs calls : list tensor) :
  run_samples session input_name inputs calls
  = (map (run session) inputs, calls ++ inputs).
Proof.
  revert calls. induction inputs as [|x inputs IH]; intros calls; simpl.
  - by rewrite app_nil_r.
  - rewrite IH. by rewrite <- app_assoc.
Qed.

Lemma output_names_prefix (outs : list NodeArg) (start n : nat) :
  start + n <= length outs ->
  mapM (fun i => arg_name <$> subscript SessionOutputs outs i) (seq start n)
  = Ok (map arg_name (take n (drop start outs))).
Proof.
  revert start. induction n as [|n IH]; intros start Hle; simpl.
  - reflexivity.
  - destruct (lookup_lt_is_Some_2 outs start) as [a Ha]; [lia|].
    rewrite (proj2 (subscript_Ok SessionOutputs _ _ _) Ha).
    cbn [fmap result_fmap rbind mbind result_bind].
    rewrite IH by lia. cbn [mbind result_bind rbind mret result_ret].
    rewrite (drop_S _ _ _ Ha). simpl. reflexivity.
Qed.

(** C1, refuted as stated: with the unsupported mode "entropy" the error
    comes after three inference calls, which the session's log shows. *)
Lemma mode_checked_before_inference_counterexample :
  "entropy" <> "naive"
  /\ get_intermediate_outputs Fixtures.files "model.onnx" Fixtures.session
       [3; 1; 2] "entropy" []
     = (Raise unknown_calib_mode, [3; 1; 2])
  /\ [3; 1; 2] <> @nil nat.
Proof. split; [intros [=] | split; [reflexivity | intros [=]]]. Qed.

(** C5, refuted as stated: on outputs that are all positive, aggregation
    returns an entry whose minimum is above zero. *)
Lemma statistics_zero_inclusion_counterexample :
  fst (get_intermediate_outputs Fixtures.files "model.onnx" Fixtures.session
         [3; 1; 2] "naive" [])
  = Ok [("y", (1%Q, 4%Q))]
  /\ ~ (1 <= 0 <= 4)%Q.
Proof. split; [reflexivity | lra]. Qed.

(** *** Lookups in the merged dictionary *)

Lemma appended_app {V} (entry : option (list V)) (vs ws : list V) :
  appended (appended entry vs) ws = appended entry (vs ++ ws).
Proof.
  destruct vs as [|v vs], ws as [|w ws]; simpl; try done.
  - by rewrite app_nil_r.
  - by rewrite <- app_assoc.
Qed.

Lemma dict_get_setdefault_append {V} (merged : dict (list V)) (k k' : string) (v : V) :
  dict_get (setdefault_append merged k v) k'
  = appended (dict_get merged k') (collect k' [(k, v)]).
Proof.
  unfold setdefault_append, collect. rewrite dict_get_set. simpl.
  destruct (String.eqb k k') eqn:E; simpl; [|done].
  by apply String.eqb_eq in E as ->.
Qed.

Lemma collect_app {V} (k : string) (l1 l2 : list (string * V)) :
  collect k (l1 ++ l2) = collect k l1 ++ collect k l2.
Proof. unfold collect. by rewrite List.filter_app, map_app. Qed.

Lemma dict_get_absorb {V} (d : list (string * V)) (merged : dict (list V)) (k : string) :
  dict_get (fold_left (fun merged kv => setdefault_append merged (fst kv) (snd kv))
                      d merged) k
  = appended (dict_get merged k) (collect k d).
Proof.
  revert merged. induction d as [|[k0 v0] d IH]; intros merged.
  - reflexivity.
  - cbn [fold_left fst snd]. rewrite IH, dict_get_setdefault_append, appended_app.
    by rewrite <- collect_app.
Qed.

Lemma dict_get_merge_from {V} (ds : list (dict V)) (merged : dict (list V)) (k : string) :
  dict_get
    (fold_left
       (fun merged d =>
          fold_left (fun merged kv => setdefault_append merged (fst kv) (snd kv))
                    d merged)
       ds merged) k
  = appended (dict_get merged k) (flat_map (collect k) ds).
Proof.
  revert merged. induction ds as [|d ds IH]; intros merged.
  - reflexivity.
  - cbn [fold_left flat_map]. by rewrite IH, dict_get_absorb, appended_app.
Qed.

Lemma dict_get_merge_dicts {V} (ds : list (dict V)) (k : string) :
  dict_get (merge_dicts ds) k = appended None (flat_map (collect k) ds).
Proof. unfold merge_dicts. by rewrite dict_get_merge_from. Qed.

(** *** The first key of a dictionary *)

Lemma first_key_dict_set {V} (d : dict V) (k : string) (v : V) :
  first_key (dict_set d k v) = or_else (first_key d) (Some k).
Proof.
  destruct d as [|[k0 v0] d]; simpl; [done|].
  by destruct (String.eqb k0 k).
Qed.

Lemma or_else_assoc (o1 o2 o3 : option string) :
  or_else (or_else o1 o2) o3 = or_else o1 (or_else o2 o3).
Proof. by destruct o1. Qed.

Lemma first_key_fold_set {V W} (step : dict W -> string * V -> dict W)
    (items : list (string * V)) (d : dict W) :
  (forall d kv, first_key (step d kv) = or_else (first_key d) (Some (fst kv))) ->
  first_key (fold_left step items d)
  = or_else (first_key d) (head (map fst items)).
Proof.
  intros Hstep. revert d. induction items as [|kv items IH]; intros d; simpl.
  - by destruct (first_key d).
  - rewrite IH, Hstep, or_else_assoc. done.
Qed.

Lemma first_key_dict_zip {V} (ks : list string) (vs : list V) :
  first_key (dict_zip ks vs) = head (map fst (combine ks vs)).
Proof.
  unfold dict_zip. rewrite first_key_fold_set; [done|].
  intros d kv. apply first_key_dict_set.
Qed.

Lemma first_key_merge_from {V} (ds : list (dict V)) (merged : dict (list V)) :
  first_key
    (fold_left
       (fun merged d =>
          fold_left (fun merged kv => setdefault_append merged (fst kv) (snd kv))
                    d merged)
       ds merged)
  = fold_left (fun acc d => or_else acc (first_key d)) ds (first_key merged).
Proof.
  revert merged. induction ds as [|d ds IH]; intros merged; simpl.
  - reflexivity.
  - rewrite IH. f_equal. apply first_key_fold_set.
    intros m kv. unfold setdefault_append. apply first_key_dict_set.
Qed.

Lemma first_key_uniform {V} (ds : list (dict V)) (hk acc : option string) :
  Forall (fun d => first_key d = hk) ds ->
  fold_left (fun acc d => or_else acc (first_key d)) ds acc
  = or_else acc (match ds with [] => None | _ :: _ => hk end).
Proof.
  intros Hall. revert acc. induction Hall as [|d ds Hd Hall IH]; intros acc; simpl.
  - by destruct acc.
  - rewrite IH, Hd, or_else_assoc. f_equal. by destruct ds, hk.
Qed.

Lemma first_key_merge_dicts {V} (ds : list (dict V)) (hk : option string) :
  Forall (fun d => first_key d = hk) ds ->
  first_key (merge_dicts ds) = match ds with [] => None | _ :: _ => hk end.
Proof.
  intros Hall. unfold merge_dicts.
  by rewrite first_key_merge_from, (first_key_uniform _ hk).
Qed.

Lemma dict_get_clean_dict {V} (d : dict V) (k : string) :
  dict_get (clean_dict d) k
  = match first_key d with
    | None => None
    | Some first => if String.eqb k first then None else dict_get d k
    end.
Proof.
  unfold clean_dict, first_key.
  destruct (dict_keys d) as [|first ks] eqn:E; simpl; [done|].
  apply dict_get_filter_ne.
Qed.
(** *** Folds, results and first keys *)

Lemma rfold_left_ext {A B} (f g : A -> B -> result A) (l : list B) (a : A) :
  (forall a b, f a b = g a b) -> rfold_left f l a = rfold_left g l a.
Proof.
  intros Hfg. revert a. induction l as [|b l IH]; intros a; simpl; [done|].
  rewrite Hfg. destruct (g a b); rsimpl; [apply IH | done].
Qed.

Lemma result_equiv_bind {A B} (R : A -> A -> Prop) (S : B -> B -> Prop)
    (m m' : result A) (k k' : A -> result B) :
  result_equiv R m m' ->
  (forall a a', R a a' -> result_equiv S (k a) (k' a')) ->
  result_equiv S (m ≫= k) (m' ≫= k').
Proof.
  intros H Hk. destruct m as [a|e], m' as [a'|e']; simpl in *; try done.
  by apply Hk.
Qed.

Lemma first_key_dict_zip_length {V} (ks : list string) (vs : list V) (n : nat) :
  length vs = n ->
  first_key (dict_zip ks vs) = match n with 0 => None | S _ => head ks end.
Proof.
  intros <-. rewrite first_key_dict_zip.
  destruct vs as [|v vs]; [by destruct ks|]. by destruct ks.
Qed.

(** ** Properties of parameter derivation *)


(** C4 (as amended).  With observed [min = max = 2] and a successor that is
    neither [Clip] nor [Relu], the range is first widened to [[0, 2]]: the
    produced scale is [2/255], a quotient by the non-zero constant 255 and not
    the fallback 1, and the zero point is 0. *)
Theorem degenerate_observation_params (nd next_node : NodeProto) :
  op_type next_node <> "Clip" -> op_type next_node <> "Relu" ->
  zero_clamp 2 2 = (0%Q, 2%Q)
  /\ exists scale,
       calculate_scale_zeropoint nd next_node 2 2 = Ok (0%Z, scale)
       /\ (scale == 2 / 255)%Q.
Proof.
  intros HC HR. split; [reflexivity|].
  unfold calculate_scale_zeropoint.
  change (zero_clamp 2 2) with (0%Q, 2%Q). cbv beta iota.
  rewrite (adjust_range_plain _ _ _ HC HR). rsimpl.
  eexists. split; [reflexivity|]. reflexivity.
Qed.

Lemma degenerate_observation_params_witness :
  zero_clamp 2 2 = (0%Q, 2%Q)
  /\ exists scale,
       calculate_scale_zeropoint Fixtures.conv Fixtures.add 2 2 = Ok (0%Z, scale)
       /\ (scale == 2 / 255)%Q.
Proof.
  apply (degenerate_observation_params Fixtures.conv Fixtures.add);
    intros [=].
Defined.

(** C4, refuted as stated: the scale produced for [min = max = 2] is not 1. *)
Lemma degenerate_observation_counterexample :
  op_type Fixtures.add <> "Clip" /\ op_type Fixtures.add <> "Relu"
  /\ calculate_scale_zeropoint Fixtures.conv Fixtures.add 2 2
     = Ok (0%Z, (2 # 255)%Q)
  /\ ~ (2 # 255 == 1)%Q.
Proof.
  repeat split; [intros [=] | intros [=] | ].
  intros H. discriminate H.
Qed.




(** C10.  When the last node of the supplied graph has a first output with
    a statistics entry, [calculate_quantization_params] returns no
    parameters: it raises [IndexError], and once the loop has passed the
    preceding nodes the error is that of [model.graph.node[index+1]], which
    lies beyond the end of the node list. *)
Theorem last_candidate_out_of_bounds (model : ModelProto)
    (pre : list NodeProto) (nd : NodeProto) (o : string) (os : list string)
    (thresholds : dict (Q * Q)) :
  node (graph model) = pre ++ [nd] ->
  output nd = o :: os ->
  dict_mem thresholds o = true ->
  node (graph model) !! (length pre + 1) = None
  /\ (exists site,
        calculate_quantization_params model 8 (Some thresholds)
        = Raise (IndexError site))
  /\ (forall params,
        params_loop (node (graph model)) thresholds (enumerate pre) [] = Ok params ->
        calculate_quantization_params model 8 (Some thresholds)
        = Raise (IndexError NextNode)).
Proof.
  intros Hnodes Hout Hmem.
  assert (Hoob : node (graph model) !! (length pre + 1) = None).
  { apply lookup_ge_None. rewrite Hnodes, length_app. simpl. lia. }
  assert (Hlast : forall params,
            params_loop (node (graph model)) thresholds [(length pre, nd)] params
            = Raise (IndexError NextNode)).
  { intros params. simpl. rewrite Hout, subscript_head. rsimpl. rewrite Hmem.
    destruct (dict_mem_item _ _ Hmem) as [t ->]. rsimpl.
    unfold subscript. by rewrite Hoob. }
  assert (Hsplit : calculate_quantization_params model 8 (Some thresholds)
            = params_loop (node (graph model)) thresholds (enumerate pre) []
              ≫= params_loop (node (graph model)) thresholds [(length pre, nd)]).
  { unfold calculate_quantization_params.
    change (negb (8 =? 8)%Z) with false. cbv iota.
    rewrite <- params_loop_app. f_equal.
    rewrite Hnodes. unfold enumerate. by rewrite enumerate_from_app. }
  split; [exact Hoob|]. split.
  - rewrite Hsplit.
    destruct (params_loop _ _ (enumerate pre) []) as [p|e] eqn:E; rsimpl.
    + rewrite Hlast. eauto.
    + apply params_loop_raises in E as [site ->]. eauto.
  - intros params Hpre. rewrite Hsplit, Hpre. rsimpl. apply Hlast.
Qed.

Lemma last_candidate_out_of_bounds_witness :
  calculate_quantization_params (Fixtures.model_of [Fixtures.add; Fixtures.conv])
    8 (Some [("y", ((-1)%Q, 1%Q))])
  = Raise (IndexError NextNode).
Proof.
  apply (proj2 (proj2 (last_candidate_out_of_bounds
           (Fixtures.model_of [Fixtures.add; Fixtures.conv])
           [Fixtures.add] Fixtures.conv "y" [] [("y", ((-1)%Q, 1%Q))]
           eq_refl eq_refl eq_refl)) []).
  reflexivity.
Defined.

(** C9 (as amended).  In [main], [calculate_quantization_params] is handed
    the model object that [augment_graph] extended in place, together with
    the statistics [get_intermediate_outputs] returned, so the node list it
    works on is the original node list followed by the probe nodes; for
    every node of that list whose first output has a statistics entry, the
    successor passed to [calculate_scale_zeropoint] is the node at the next
    position of that list. *)
Theorem main_derivation_graph {tensor}
    (engine : ModelProto -> InferenceSession tensor)
    (model_path calib_mode : string) (inputs : list tensor)
    (w : world tensor) (original : ModelProto) (params : dict (Z * Q)) :
  w_files w !! model_path = Some original ->
  fst (main engine model_path calib_mode inputs w) = Ok params ->
  exists added_nodes added_outputs stats,
    augment_loop (node (graph original)) [] [] = Ok (added_nodes, added_outputs)
    /\ w_heap (snd (main engine model_path calib_mode inputs w)) !! length (w_heap w)
       = Some (extend_graph original added_nodes added_outputs)
    /\ fst (get_intermediate_outputs
               (<[augmented_model_path :=
                    extend_graph original added_nodes added_outputs]> (w_files w))
               model_path
               (engine (extend_graph original added_nodes added_outputs))
               inputs calib_mode (w_calls w))
       = Ok stats
    /\ calculate_quantization_params
         (extend_graph original added_nodes added_outputs) 8 (Some stats)
       = Ok params
    /\ forall i nd o,
         (node (graph original) ++ added_nodes) !! i = Some nd ->
         head (output nd) = Some o ->
         dict_mem stats o = true ->
         exists next_node t p,
           (node (graph original) ++ added_nodes) !! (i + 1) = Some next_node
           /\ dict_get stats o = Some t
           /\ calculate_scale_zeropoint nd next_node (fst t) (snd t) = Ok p
           /\ ((forall j nd',
                  (node (graph original) ++ added_nodes) !! j = Some nd' ->
                  j <> i -> head (output nd') <> Some o) ->
               dict_get params o = Some p).
Proof.
  intros Hfile Hok.
  destruct (main engine model_path calib_mode inputs w) as [r w'] eqn:Hmain.
  cbn [fst] in Hok. subst r. cbn [snd].
  unfold main, onnx_load in Hmain. rewrite Hfile in Hmain.
  unfold augment_graph in Hmain. rewrite list_lookup_middle in Hmain by done.
  destruct (augment_loop (node (graph original)) [] [])
    as [[added_nodes added_outputs]|e]; [|done].
  set (augmented := extend_graph original added_nodes added_outputs) in *.
  assert (Hread : <[length (w_heap w) := augmented]> (w_heap w ++ [original])
                  !! length (w_heap w) = Some augmented).
  { apply list_lookup_insert_eq. rewrite length_app. simpl. lia. }
  rewrite Hread, lookup_insert_eq in Hmain.
  destruct (_ ≫= _) as [shape|e] in Hmain; [|done].
  destruct (get_intermediate_outputs _ _ _ _ _ _) as [[stats|e] calls] eqn:Hstats;
    [|done].
  injection Hmain as Hparams <-. cbn [w_heap].
  exists added_nodes, added_outputs, stats.
  split; [done|]. split; [done|].
  split; [by fold augmented; rewrite Hstats|]. split; [done|].
  intros i nd o Hi Ho Hmem.
  unfold calculate_quantization_params in Hparams.
  change (negb (8 =? 8)%Z) with false in Hparams. cbv iota in Hparams.
  change (node (graph augmented)) with (node (graph original) ++ added_nodes)
    in Hparams.
  destruct (params_loop_successor _ _ _ _ _ i nd o Hparams)
    as (next & t & p & Hn & Ht & Hp & Hlast); try done.
  - apply enumerate_from_NoDup.
  - by apply enumerate_elem.
  - exists next, t, p. repeat split; try done.
    intros Hother. apply Hlast. intros j nd' Hin%enumerate_elem. by apply Hother.
Qed.

Lemma main_derivation_graph_witness :
  exists stats,
    calculate_quantization_params
      (extend_graph (Fixtures.model_of [Fixtures.conv])
         [min_probe_node Fixtures.conv; max_probe_node Fixtures.conv]
         [min_probe_output Fixtures.conv; max_probe_output Fixtures.conv])
      8 (Some stats)
    = Ok [("y", (0%Z, (4 # 255)%Q))].
Proof.
  destruct (main_derivation_graph (fun _ => Fixtures.session)
              "single.onnx" "naive" [3; 1; 2]
              (Build_world [] Fixtures.single_files [])
              (Fixtures.model_of [Fixtures.conv])
              [("y", (0%Z, (4 # 255)%Q))] eq_refl eq_refl)
    as (added_nodes & added_outputs & stats & Haug & _ & _ & Hcalc & _).
  injection Haug as <- <-. by exists stats.
Defined.

(** C9, refuted as stated: for a graph whose only node is a candidate,
    [main] obtains parameters, computed against the min probe that
    augmentation appended; on the original node list the same derivation
    finds no successor at all. *)
Lemma derivation_on_original_graph_counterexample :
  let original := Fixtures.model_of [Fixtures.conv] in
  fst (main (fun _ => Fixtures.session) "single.onnx" "naive" [3; 1; 2]
         (Build_world [] Fixtures.single_files []))
  = Ok [("y", (0%Z, (4 # 255)%Q))]
  /\ calculate_quantization_params original 8 (Some [("y", (1%Q, 4%Q))])
     = Raise (IndexError NextNode)
  /\ node (graph original) !! 1 = None
  /\ calculate_scale_zeropoint Fixtures.conv (min_probe_node Fixtures.conv) 1 4
     = Ok (0%Z, (4 # 255)%Q).
Proof. repeat split. Qed.

(** * Further properties of the three stages *)

(** ** Graph augmentation: the appended nodes, failure, repetition *)

Lemma eligible_probes (nd : NodeProto) :
  eligible (min_probe_node nd) = false /\ eligible (max_probe_node nd) = false.
Proof. split; reflexivity. Qed.

Lemma filter_eligible_probes (l : list NodeProto) :
  List.filter eligible
    (flat_map (fun nd => [min_probe_node nd; max_probe_node nd]) l) = [].
Proof. induction l as [|nd l IH]; simpl; [done | exact IH]. Qed.

(** X1.  On a graph whose candidate nodes each have an output,
    [augment_graph] leaves in the model the original nodes followed, candidate
    by candidate, by a [ReduceMin] and a [ReduceMax] node, [2 * E] nodes in
    all: each reads the candidate's first output, writes that name suffixed
    with [_ReduceMin] or [_ReduceMax], carries the candidate's name with the
    same suffix, and has [keepdims = 0]. *)
Theorem augment_graph_nodes (h : heap) (model : ref) (m : ModelProto) :
  h !! model = Some m ->
  Forall (fun nd => eligible nd = true -> output nd <> []) (node (graph m)) ->
  exists h' m',
    augment_graph model h = (Ok model, h')
    /\ h' !! model = Some m'
    /\ node (graph m')
       = node (graph m)
         ++ flat_map (fun nd => [min_probe_node nd; max_probe_node nd])
                     (List.filter eligible (node (graph m)))
    /\ length (node (graph m'))
       = length (node (graph m))
         + 2 * length (List.filter eligible (node (graph m)))
    /\ forall nd o os,
         nd ∈ List.filter eligible (node (graph m)) -> output nd = o :: os ->
         min_probe_node nd
         = {| op_type := "ReduceMin"; name := name nd +:+ "_ReduceMin";
              input := [o]; output := [o +:+ "_ReduceMin"];
              attribute := [ {| attr_name := "keepdims"; attr_f := 0;
                                attr_i := 0 |} ] |}
         /\ max_probe_node nd
            = {| op_type := "ReduceMax"; name := name nd +:+ "_ReduceMax";
                 input := [o]; output := [o +:+ "_ReduceMax"];
                 attribute := [ {| attr_name := "keepdims"; attr_f := 0;
                                   attr_i := 0 |} ] |}.
Proof.
  intros Hm Hwf. unfold augment_graph. rewrite Hm.
  rewrite (augment_loop_spec _ [] [] Hwf). cbv beta iota.
  assert (Hlt : model < length h) by (by eapply lookup_lt_Some).
  eexists _, _. split; [reflexivity|].
  split; [by apply list_lookup_insert_eq|].
  split; [reflexivity|]. split.
  - simpl. by rewrite length_app, flat_map_pair_length.
  - intros nd o os _ Ho.
    unfold min_probe_node, max_probe_node, primary_output, make_node.
    by rewrite Ho.
Qed.

Lemma augment_graph_nodes_witness :
  exists h' m',
    augment_graph 0 [Fixtures.model_of [Fixtures.conv; Fixtures.relu]] = (Ok 0, h')
    /\ h' !! 0 = Some m'
    /\ length (node (graph m')) = 4.
Proof.
  destruct (augment_graph_nodes
              [Fixtures.model_of [Fixtures.conv; Fixtures.relu]] 0
              (Fixtures.model_of [Fixtures.conv; Fixtures.relu]) eq_refl)
    as (h' & m' & Hrun & Hm' & _ & Hlen & _).
  { repeat constructor; discriminate. }
  exists h', m'. split; [exact Hrun|]. split; [exact Hm'|]. exact Hlen.
Defined.

Lemma augment_loop_Raise (nodes added_nodes : list NodeProto)
    (added_outputs : list ValueInfoProto) (e : exn) :
  augment_loop nodes added_nodes added_outputs = Raise e ->
  e = IndexError NodeOutput0
  /\ Exists (fun nd => eligible nd = true /\ output nd = []) nodes.
Proof.
  revert added_nodes added_outputs.
  induction nodes as [|nd nodes IH]; intros added_nodes added_outputs.
  - discriminate.
  - cbn [augment_loop]. fold (eligible nd).
    destruct (eligible nd) eqn:E.
    + destruct (output nd) as [|o os] eqn:Eo.
      * intros [= <-]. split; [done|]. by left.
      * rewrite subscript_head. rsimpl. cbn [make_node output].
        rewrite !subscript_head. rsimpl.
        intros (-> & Hex)%IH. split; [done|]. by right.
    + intros (-> & Hex)%IH. split; [done|]. by right.
Qed.

Lemma augment_loop_Exists (nodes added_nodes : list NodeProto)
    (added_outputs : list ValueInfoProto) :
  Exists (fun nd => eligible nd = true /\ output nd = []) nodes ->
  augment_loop nodes added_nodes added_outputs = Raise (IndexError NodeOutput0).
Proof.
  intros Hex. revert added_nodes added_outputs.
  induction nodes as [|nd nodes IH]; intros added_nodes added_outputs.
  - by apply Exists_nil in Hex.
  - cbn [augment_loop]. fold (eligible nd).
    destruct (eligible nd) eqn:E.
    + destruct (output nd) as [|o os] eqn:Eo; [done|].
      rewrite subscript_head. rsimpl. cbn [make_node output].
      rewrite !subscript_head. rsimpl.
      apply IH. apply Exists_cons in Hex as [[_ Hnil]|Hex]; [congruence | done].
    + apply IH. apply Exists_cons in Hex as [[Hel _]|Hex]; [congruence | done].
Qed.

(** X2.  [augment_graph] raises exactly when some candidate node has no
    output; the exception is the [IndexError] of [node.output[0]], and the
    model is then left as it was, no probe having been appended. *)
Theorem augment_graph_failure (h : heap) (model : ref) (m : ModelProto) :
  h !! model = Some m ->
  (Exists (fun nd => eligible nd = true /\ output nd = []) (node (graph m)) ->
   augment_graph model h = (Raise (IndexError NodeOutput0), h))
  /\ (forall e h', augment_graph model h = (Raise e, h') ->
        e = IndexError NodeOutput0 /\ h' = h
        /\ Exists (fun nd => eligible nd = true /\ output nd = [])
                  (node (graph m))).
Proof.
  intros Hm. unfold augment_graph. rewrite Hm. split.
  - intros Hex. by rewrite (augment_loop_Exists _ [] [] Hex).
  - intros e h'.
    destruct (augment_loop (node (graph m)) [] []) as [[ns os]|e'] eqn:E; [done|].
    intros [= <- <-]. apply augment_loop_Raise in E as [-> Hex]. done.
Qed.

Lemma augment_graph_failure_witness :
  augment_graph 0 [Fixtures.model_of [Fixtures.add; Cases.conv_without_output]]
  = (Raise (IndexError NodeOutput0),
     [Fixtures.model_of [Fixtures.add; Cases.conv_without_output]]).
Proof.
  apply (augment_graph_failure
           [Fixtures.model_of [Fixtures.add; Cases.conv_without_output]] 0
           (Fixtures.model_of [Fixtures.add; Cases.conv_without_output]) eq_refl).
  right. left. split; reflexivity.
Defined.

(** X3.  The probe nodes are no candidates themselves, so augmenting an
    already augmented model probes the same candidates again: the second
    call appends a second copy of the same probe nodes and probe outputs. *)
Theorem augment_graph_twice (h : heap) (model : ref) (m : ModelProto) :
  h !! model = Some m ->
  Forall (fun nd => eligible nd = true -> output nd <> []) (node (graph m)) ->
  let probes :=
    flat_map (fun nd => [min_probe_node nd; max_probe_node nd])
             (List.filter eligible (node (graph m))) in
  let probe_outputs :=
    flat_map (fun nd => [min_probe_output nd; max_probe_output nd])
             (List.filter eligible (node (graph m))) in
  exists h1 h2 m2,
    augment_graph model h = (Ok model, h1)
    /\ augment_graph model h1 = (Ok model, h2)
    /\ h2 !! model = Some m2
    /\ node (graph m2) = node (graph m) ++ probes ++ probes
    /\ graph_output (graph m2)
       = graph_output (graph m) ++ probe_outputs ++ probe_outputs.
Proof.
  intros Hm Hwf probes probe_outputs.
  assert (Hlt : model < length h) by (by eapply lookup_lt_Some).
  unfold augment_graph at 1. rewrite Hm.
  rewrite (augment_loop_spec _ [] [] Hwf). cbv beta iota.
  fold probes probe_outputs.
  set (m1 := extend_graph m ([] ++ probes) ([] ++ probe_outputs)).
  assert (Hm1 : <[model := m1]> h !! model = Some m1)
    by (by apply list_lookup_insert_eq).
  assert (Hwf1 : Forall (fun nd => eligible nd = true -> output nd <> [])
                        (node (graph m1))).
  { simpl. apply Forall_app. split; [done|].
    apply Forall_forall. intros nd Hin. unfold probes in Hin.
    apply list_elem_of_In, in_flat_map in Hin as (c & _ & [<-|[<-|[]]]); done. }
  assert (Hsame : List.filter eligible (node (graph m1))
                  = List.filter eligible (node (graph m))).
  { simpl. rewrite List.filter_app. unfold probes.
    by rewrite filter_eligible_probes, app_nil_r. }
  eexists _, _, _. split; [reflexivity|].
  unfold augment_graph. rewrite Hm1.
  rewrite (augment_loop_spec _ [] [] Hwf1). cbv beta iota. rewrite Hsame.
  fold probes probe_outputs.
  split; [reflexivity|]. split.
  - apply list_lookup_insert_eq. by rewrite length_insert.
  - simpl. by rewrite <- !app_assoc.
Qed.

Lemma augment_graph_twice_witness :
  exists h1 h2 m2,
    augment_graph 0 [Fixtures.model_of [Fixtures.conv; Fixtures.relu]] = (Ok 0, h1)
    /\ augment_graph 0 h1 = (Ok 0, h2)
    /\ h2 !! 0 = Some m2
    /\ length (node (graph m2)) = 6
    /\ length (graph_output (graph m2)) = 5.
Proof.
  destruct (augment_graph_twice
              [Fixtures.model_of [Fixtures.conv; Fixtures.relu]] 0
              (Fixtures.model_of [Fixtures.conv; Fixtures.relu]) eq_refl)
    as (h1 & h2 & m2 & H1 & H2 & Hm2 & Hn & Ho).
  { repeat constructor; discriminate. }
  exists h1, h2, m2. repeat split; try done.
  - by rewrite Hn.
  - by rewrite Ho.
Defined.

(** ** Probe names and the keys of the statistics *)

Lemma rpartition_before_suffix (sep : Ascii.ascii) (o suffix : string) :
  rpartition_before sep suffix = None ->
  rpartition_before sep (o +:+ String sep suffix) = Some o.
Proof.
  intros Hsuf. induction o as [|c o IH]; simpl.
  - by rewrite Hsuf, Ascii.eqb_refl.
  - by rewrite IH.
Qed.

Lemma rpartition0_ReduceMin (o : string) :
  rpartition0 "_"%char (o +:+ "_ReduceMin") = o.
Proof.
  unfold rpartition0.
  by rewrite (rpartition_before_suffix "_"%char o "ReduceMin").
Qed.

Lemma rpartition0_ReduceMax (o : string) :
  rpartition0 "_"%char (o +:+ "_ReduceMax") = o.
Proof.
  unfold rpartition0.
  by rewrite (rpartition_before_suffix "_"%char o "ReduceMax").
Qed.

Lemma string_app_inv_head (o s1 s2 : string) : o +:+ s1 = o +:+ s2 -> s1 = s2.
Proof. induction o as [|c o IH]; simpl; [done|]. intros [= H]. by apply IH. Qed.

Lemma even_positions_pairs {A B} (f g : A -> B) (l : list A) :
  even_positions (flat_map (fun x => [f x; g x]) l) = map f l.
Proof. induction l as [|x l IH]; simpl; [done | by rewrite IH]. Qed.

(** X4.  The statistics keys [get_intermediate_outputs] derives from the
    probe outputs that [augment_graph] appended, by cutting each min-probe
    name at its last underscore, are the first outputs of the candidate nodes,
    in node order, whatever underscores those names contain. *)
Theorem probe_names_give_back_outputs (nodes : list NodeProto) :
  let added_node_output_names :=
    map vi_name
      (flat_map (fun nd => [min_probe_output nd; max_probe_output nd])
                (List.filter eligible nodes)) in
  map (rpartition0 "_"%char) (even_positions added_node_output_names)
  = map primary_output (List.filter eligible nodes).
Proof.
  intros names. unfold names.
  assert (H : forall l : list NodeProto,
            map vi_name
              (flat_map (fun nd => [min_probe_output nd; max_probe_output nd]) l)
            = flat_map (fun nd => [primary_output nd +:+ "_ReduceMin";
                                   primary_output nd +:+ "_ReduceMax"]) l).
  { intros l. induction l as [|nd l IH]; simpl; [done | by rewrite IH]. }
  rewrite H, even_positions_pairs, map_map.
  apply map_ext. intros nd. apply rpartition0_ReduceMin.
Qed.

Lemma probe_name_inj (o1 o2 s1 s2 : string) :
  s1 = "_ReduceMin" \/ s1 = "_ReduceMax" ->
  s2 = "_ReduceMin" \/ s2 = "_ReduceMax" ->
  o1 +:+ s1 = o2 +:+ s2 -> o1 = o2 /\ s1 = s2.
Proof.
  intros H1 H2 Heq.
  assert (Ho : o1 = o2).
  { apply (f_equal (rpartition0 "_"%char)) in Heq.
    destruct H1 as [-> | ->], H2 as [-> | ->];
      by rewrite ?rpartition0_ReduceMin, ?rpartition0_ReduceMax in Heq. }
  split; [done|]. subst o2. by apply string_app_inv_head in Heq.
Qed.

(** X5.  When the candidate nodes have pairwise distinct first outputs, the
    names of the appended probe outputs are pairwise distinct. *)
Theorem probe_output_names_distinct (nodes : list NodeProto) :
  NoDup (map primary_output (List.filter eligible nodes)) ->
  NoDup (map vi_name
           (flat_map (fun nd => [min_probe_output nd; max_probe_output nd])
                     (List.filter eligible nodes))).
Proof.
  generalize (List.filter eligible nodes). intros l.
  induction l as [|nd l IH]; simpl; [constructor|].
  intros [Hnd Hl]%NoDup_cons. specialize (IH Hl).
  assert (Hfresh : forall s, s = "_ReduceMin" \/ s = "_ReduceMax" ->
            primary_output nd +:+ s
            ∉ map vi_name
                (flat_map (fun nd => [min_probe_output nd; max_probe_output nd]) l)).
  { intros s Hs Hin. apply Hnd. clear -Hin Hs.
    induction l as [|c l IHl]; simpl in *; [by apply elem_of_nil in Hin|].
    apply elem_of_cons in Hin as [Heq|Hin].
    { destruct (probe_name_inj _ _ _ _ Hs (or_introl eq_refl) Heq) as [-> _].
      by left. }
    apply elem_of_cons in Hin as [Heq|Hin].
    { destruct (probe_name_inj _ _ _ _ Hs (or_intror eq_refl) Heq) as [-> _].
      by left. }
    right. by apply IHl. }
  constructor; [|constructor; [|done]].
  - intros [Heq|Hin]%elem_of_cons.
    + by apply string_app_inv_head in Heq.
    + by apply (Hfresh "_ReduceMin" (or_introl eq_refl)).
  - by apply (Hfresh "_ReduceMax" (or_intror eq_refl)).
Qed.

Lemma probe_output_names_distinct_witness :
  NoDup ["y_ReduceMin"; "y_ReduceMax"; "fc_out_0_ReduceMin"; "fc_out_0_ReduceMax"].
Proof.
  apply (probe_output_names_distinct [Fixtures.conv; Fixtures.relu; Cases.matmul]).
  vm_compute. apply (bool_decide_unpack (NoDup ["y"; "fc_out_0"])). by vm_compute.
Defined.

(** ** Statistics aggregation: inference calls and failures *)

(** X7.  Three failures of [get_intermediate_outputs] come without any
    inference call, in every aggregation mode: a missing model file raises
    [FileNotFoundError]; a session without declared input raises the
    [IndexError] of [session.get_inputs()[0]]; an empty dataset raises the
    [IndexError] of [intermediate_outputs[0]], so that an unsupported mode
    goes unreported on an empty dataset. *)
Theorem failures_without_inference {tensor}
    (files : gmap string ModelProto) (model_path : string)
    (session : InferenceSession tensor) (inputs : list tensor)
    (calib_mode : string) (calls : list tensor) :
  let outcome :=
    get_intermediate_outputs files model_path session inputs calib_mode calls in
  (files !! model_path = None ->
   outcome = (Raise (FileNotFoundError model_path), calls))
  /\ (is_Some (files !! model_path) -> get_inputs session = [] ->
      outcome = (Raise (IndexError SessionInputs), calls))
  /\ (is_Some (files !! model_path) -> get_inputs session <> [] ->
      inputs = [] ->
      outcome = (Raise (IndexError FirstSnapshot), calls)).
Proof.
  intros outcome. unfold outcome, get_intermediate_outputs, onnx_load.
  split; [by intros ->|]. split.
  - intros [m ->] ->. reflexivity.
  - intros [m ->] Hin ->.
    destruct (get_inputs session) as [|input0 rest]; [done|].
    rewrite subscript_head. cbn [run_samples].
    unfold aggregate. reflexivity.
Qed.

Lemma failures_without_inference_witness :
  get_intermediate_outputs Fixtures.files "absent.onnx" Fixtures.session
    [3; 1; 2] "naive" [5]
  = (Raise (FileNotFoundError "absent.onnx"), [5])
  /\ get_intermediate_outputs Fixtures.files "model.onnx" Sessions.inputless
       [3; 1; 2] "naive" [5]
     = (Raise (IndexError SessionInputs), [5])
  /\ get_intermediate_outputs Fixtures.files "model.onnx" Fixtures.session
       [] "entropy" [5]
     = (Raise (IndexError FirstSnapshot), [5]).
Proof.
  split; [|split].
  - apply (failures_without_inference Fixtures.files "absent.onnx"
             Fixtures.session [3; 1; 2] "naive" [5]). reflexivity.
  - apply (failures_without_inference Fixtures.files "model.onnx"
             Sessions.inputless [3; 1; 2] "naive" [5]);
      [by eexists | reflexivity].
  - apply (failures_without_inference Fixtures.files "model.onnx"
             Fixtures.session [] "entropy" [5]);
      [by eexists | discriminate | reflexivity].
Defined.

Lemma output_names_all (outs : list NodeArg) :
  mapM (fun i => arg_name <$> subscript SessionOutputs outs i)
       (seq 0 (length outs))
  = Ok (map arg_name outs).
Proof.
  rewrite output_names_prefix by (simpl; lia).
  by rewrite drop_0, firstn_all.
Qed.

Lemma first_key_merged_snapshots {V} (names : list string)
    (snapshots : list (list V)) (n : nat) :
  Forall (fun outs => length outs = n) snapshots ->
  snapshots <> [] -> n <> 0 ->
  first_key (merge_dicts (map (dict_zip names) snapshots)) = head names.
Proof.
  intros Hlen Hne Hn.
  rewrite (first_key_merge_dicts _ (head names)).
  - by destruct snapshots.
  - apply Forall_map. eapply Forall_impl; [exact Hlen|].
    intros outs Ho. cbv beta. rewrite (first_key_dict_zip_length _ _ n Ho).
    by destruct n.
Qed.

Lemma aggregate_naive {tensor} (session : InferenceSession tensor)
    (num_model_outputs : nat) (first : list value) (more : list (list value)) :
  length first = length (get_outputs session) ->
  let names := map arg_name (get_outputs session) in
  aggregate session num_model_outputs (first :: more) "naive"
  = naive_pairs
      (clean_dict (merge_dicts (map (dict_zip names) (first :: more))))
      (drop num_model_outputs names)
    ≫= fun pairs =>
         Ok (dict_zip (map (rpartition0 "_"%char)
                           (even_positions (drop num_model_outputs names)))
                      pairs).
Proof.
  intros Hlen names. unfold aggregate. rewrite subscript_head. rsimpl.
  rewrite Hlen, output_names_all. rsimpl. reflexivity.
Qed.

(** X8.  When the model read from [model_path] declares no output, naive
    aggregation over a non-empty dataset raises [KeyError] for the first
    output name of the session: the entry under the first key of the merged
    dictionary is dropped, and with no original output that entry is the
    first probe's. *)
Theorem no_original_output_key_error {tensor}
    (files : gmap string ModelProto) (model_path : string)
    (session : InferenceSession tensor) (inputs : list tensor)
    (calls : list tensor) (model : ModelProto) (input0 out0 : NodeArg)
    (outs : list NodeArg) :
  files !! model_path = Some model ->
  graph_output (graph model) = [] ->
  get_inputs session !! 0 = Some input0 ->
  get_outputs session = out0 :: outs ->
  inputs <> [] ->
  Forall (fun x => length (run session x) = length (get_outputs session)) inputs ->
  fst (get_intermediate_outputs files model_path session inputs "naive" calls)
  = Raise (KeyError (arg_name out0)).
Proof.
  intros Hfile Hnone Hin Houts Hne Hlen.
  unfold get_intermediate_outputs, onnx_load.
  rewrite Hfile, (proj2 (subscript_Ok SessionInputs _ _ _) Hin).
  rewrite run_samples_spec. cbn [fst]. rewrite Hnone.
  destruct inputs as [|x rest]; [done|].
  cbn [map]. rewrite aggregate_naive by exact (Forall_inv Hlen).
  change (run session x :: map (run session) rest)
    with (map (run session) (x :: rest)).
  set (merged := merge_dicts _).
  assert (Hfirst : first_key merged = Some (arg_name out0)).
  { unfold merged.
    rewrite (first_key_merged_snapshots _ _ (length (get_outputs session))).
    - by rewrite Houts.
    - by apply Forall_map.
    - done.
    - by rewrite Houts. }
  rewrite Houts. cbn [map length drop naive_pairs].
  unfold dict_item. rewrite dict_get_clean_dict, Hfirst.
  by rewrite String.eqb_refl.
Qed.

Lemma no_original_output_key_error_witness :
  fst (get_intermediate_outputs Sessions.bare_files "bare.onnx" Fixtures.session
         [3; 1; 2] "naive" [])
  = Raise (KeyError "z").
Proof.
  apply (no_original_output_key_error Sessions.bare_files "bare.onnx"
           Fixtures.session [3; 1; 2] []
           _ {| arg_name := "x"; arg_shape := [1; 3; 2; 2]%Z |}
           {| arg_name := "z"; arg_shape := [] |} _ eq_refl eq_refl eq_refl eq_refl).
  - discriminate.
  - repeat constructor.
Defined.

(** ** Columns of the merged dictionary *)







Lemma adjust_range_Clip_raise (next_node : NodeProto) (lo hi : Q) :
  op_type next_node = "Clip" -> length (attribute next_node) < 2 ->
  adjust_range next_node lo hi = Raise (IndexError ClipAttribute).
Proof.
  intros HC Hlen. unfold adjust_range. rewrite HC. simpl.
  destruct (attribute next_node) as [|a0 [|a1 rest]]; simpl in *; [done|done|lia].
Qed.

Lemma adjust_range_total (next_node : NodeProto) (lo hi : Q) :
  (op_type next_node = "Clip" -> 2 <= length (attribute next_node)) ->
  exists r, adjust_range next_node lo hi = Ok r.
Proof.
  intros Hattr. unfold adjust_range.
  destruct (String.eqb (op_type next_node) "Clip") eqn:EC.
  - apply String.eqb_eq in EC. specialize (Hattr EC).
    destruct (attribute next_node) as [|a0 [|a1 rest]]; simpl in Hattr; try lia.
    rewrite EC. simpl. eauto.
  - rsimpl. eauto.
Qed.

(** X12.  [calculate_scale_zeropoint] raises exactly when the successor is
    a [Clip] node with fewer than two attributes (as when the bounds are
    given as inputs rather than attributes); the exception is the
    [IndexError] of [next_node.attribute[0]] or [next_node.attribute[1]]. *)
Theorem clip_without_attributes_raises (nd next_node : NodeProto)
    (rmin rmax : Q) :
  (op_type next_node = "Clip" /\ length (attribute next_node) < 2
   -> calculate_scale_zeropoint nd next_node rmin rmax
      = Raise (IndexError ClipAttribute))
  /\ (forall e, calculate_scale_zeropoint nd next_node rmin rmax = Raise e ->
        e = IndexError ClipAttribute
        /\ op_type next_node = "Clip" /\ length (attribute next_node) < 2).
Proof.
  split.
  - intros [HC Hlen]. unfold calculate_scale_zeropoint, zero_clamp.
    by rewrite (adjust_range_Clip_raise _ _ _ HC Hlen).
  - intros e He. split; [by eapply calculate_scale_zeropoint_raises|].
    destruct (decide (op_type next_node = "Clip")) as [HC|HC].
    + split; [done|].
      destruct (le_lt_dec 2 (length (attribute next_node))) as [Hle|Hlt]; [|done].
      exfalso. unfold calculate_scale_zeropoint, zero_clamp in He.
      destruct (adjust_range_total next_node (py_min rmin 0) (py_max rmax 0))
        as [[lo hi] Hr]; [done|].
      by rewrite Hr in He.
    + exfalso. unfold calculate_scale_zeropoint, zero_clamp in He.
      destruct (adjust_range_total next_node (py_min rmin 0) (py_max rmax 0))
        as [[lo hi] Hr]; [done|].
      by rewrite Hr in He.
Qed.

Lemma clip_without_attributes_raises_witness :
  calculate_scale_zeropoint Fixtures.conv Graphs.clip_by_inputs (-2) 10
  = Raise (IndexError ClipAttribute).
Proof.
  apply (proj1 (clip_without_attributes_raises Fixtures.conv
                  Graphs.clip_by_inputs (-2) 10)).
  split; [reflexivity | simpl; lia].
Defined.

Lemma dict_mem_set {V} (d : dict V) (k k' : string) (v : V) :
  dict_mem (dict_set d k v) k' = String.eqb k k' || dict_mem d k'.
Proof.
  unfold dict_mem. rewrite dict_get_set. by destruct (String.eqb k k').
Qed.

Lemma params_loop_keys nodes th todo params params' (k : string) :
  params_loop nodes th todo params = Ok params' ->
  dict_mem params' k = true
  <-> dict_mem params k = true
      \/ (dict_mem th k = true
          /\ exists i nd, (i, nd) ∈ todo /\ head (output nd) = Some k).
Proof.
  revert params. induction todo as [|[index nd] todo IH]; intros params; simpl.
  - intros [= <-]. split; [by left|].
    intros [H|(_ & i & nd & Hin & _)]; [done | by apply elem_of_nil in Hin].
  - destruct (output nd) as [|o os] eqn:Eo; [done|].
    rewrite subscript_head. rsimpl.
    destruct (dict_mem th o) eqn:Hmem.
    + destruct (dict_item th o) as [t|e]; [|done]. rsimpl.
      destruct (subscript NextNode nodes (index + 1)) as [nx|e]; [|done]. rsimpl.
      destruct (calculate_scale_zeropoint nd nx t.1 t.2) as [p|e]; [|done]. rsimpl.
      intros Hloop. rewrite (IH _ Hloop), dict_mem_set. split.
      * intros [[Heq|H]%orb_true_iff|(Hth & i & n & Hin & Hhd)].
        -- apply String.eqb_eq in Heq as <-. right. split; [done|].
           exists index, nd. split; [left | by rewrite Eo].
        -- by left.
        -- right. split; [done|]. exists i, n. split; [by right | done].
      * intros [H|(Hth & i & n & [[= -> ->]|Hin]%elem_of_cons & Hhd)].
        -- left. by rewrite H, orb_true_r.
        -- left. rewrite Eo in Hhd. injection Hhd as ->.
           by rewrite String.eqb_refl.
        -- right. split; [done|]. by exists i, n.
    + intros Hloop. rewrite (IH _ Hloop). split.
      * intros [H|(Hth & i & n & Hin & Hhd)]; [by left|].
        right. split; [done|]. exists i, n. split; [by right | done].
      * intros [H|(Hth & i & n & [[= -> ->]|Hin]%elem_of_cons & Hhd)].
        -- by left.
        -- rewrite Eo in Hhd. injection Hhd as ->. congruence.
        -- right. split; [done|]. by exists i, n.
Qed.

(** X14.  When [calculate_quantization_params] returns, the returned
    dictionary has an entry for exactly those tensors that have a statistics
    entry and are the first output of some node of the graph: a node without
    statistics is passed over without an error, and statistics of a tensor
    that no node produces first are ignored. *)
Theorem derivation_keys (model : ModelProto) (nbits : Z)
    (thresholds : dict (Q * Q)) (params : dict (Z * Q)) (k : string) :
  calculate_quantization_params model nbits (Some thresholds) = Ok params ->
  dict_mem params k = true
  <-> dict_mem thresholds k = true
      /\ exists nd, nd ∈ node (graph model) /\ head (output nd) = Some k.
Proof.
  unfold calculate_quantization_params.
  destruct (negb (nbits =? 8)%Z); [done|].
  intros Hloop. rewrite (params_loop_keys _ _ _ _ _ k Hloop). split.
  - intros [H|(Hth & i & nd & Hin%enumerate_elem & Hhd)]; [done|].
    split; [done|]. exists nd. split; [|done]. by eapply list_elem_of_lookup_2.
  - intros (Hth & nd & (i & Hi)%list_elem_of_lookup_1 & Hhd).
    right. split; [done|]. exists i, nd. split; [by apply enumerate_elem | done].
Qed.

Lemma derivation_keys_witness :
  dict_mem [("y", (0%Z, (6 # 255)%Q))] "y" = true
  <-> dict_mem [("y", ((-2)%Q, 10%Q)); ("unused", (0%Q, 1%Q))] "y" = true
      /\ exists nd, nd ∈ [Fixtures.conv; Fixtures.clip 0 6]
                    /\ head (output nd) = Some "y".
Proof.
  apply (derivation_keys (Fixtures.model_of [Fixtures.conv; Fixtures.clip 0 6]) 8
           [("y", ((-2)%Q, 10%Q)); ("unused", (0%Q, 1%Q))]
           [("y", (0%Z, (6 # 255)%Q))] "y" eq_refl).
Defined.

Lemma calculate_scale_zeropoint_total (nd next_node : NodeProto) (rmin rmax : Q) :
  (op_type next_node = "Clip" -> 2 <= length (attribute next_node)) <->
  exists p, calculate_scale_zeropoint nd next_node rmin rmax = Ok p.
Proof.
  split.
  - intros Hattr. unfold calculate_scale_zeropoint, zero_clamp.
    destruct (adjust_range_total next_node (py_min rmin 0) (py_max rmax 0) Hattr)
      as [[lo hi] ->]. rsimpl. eauto.
  - intros [p Hp] HC.
    destruct (le_lt_dec 2 (length (attribute next_node))) as [Hle|Hlt]; [done|].
    unfold calculate_scale_zeropoint, zero_clamp in Hp.
    by rewrite (adjust_range_Clip_raise _ _ _ HC Hlt) in Hp.
Qed.

Lemma params_loop_total nodes th todo params :
  (exists params', params_loop nodes th todo params = Ok params')
  <-> forall i nd, (i, nd) ∈ todo ->
        exists o, head (output nd) = Some o
          /\ (dict_mem th o = true ->
              exists next_node, nodes !! (i + 1) = Some next_node
                /\ (op_type next_node = "Clip"
                    -> 2 <= length (attribute next_node))).
Proof.
  revert params. induction todo as [|[index nd] todo IH]; intros params.
  - split; [by intros _ i nd ?%elem_of_nil | simpl; eauto].
  - cbn [params_loop]. split.
    + intros [params' Hloop] i n Hin.
      destruct (output nd) as [|o os] eqn:Eo; [done|].
      rewrite subscript_head in Hloop. rsimpl in Hloop.
      destruct (dict_mem th o) eqn:Hmem.
      * unfold dict_item in Hloop.
        destruct (dict_get th o) as [t|]; [|done]. rsimpl in Hloop.
        destruct (subscript NextNode nodes (index + 1)) as [nx|e] eqn:En; [|done].
        rsimpl in Hloop.
        destruct (calculate_scale_zeropoint nd nx t.1 t.2) as [p|e] eqn:Ep; [|done].
        rsimpl in Hloop.
        apply elem_of_cons in Hin as [[= -> ->]|Hin].
        -- exists o. split; [by rewrite Eo|]. intros _. exists nx.
           split; [by apply subscript_Ok in En|].
           apply (calculate_scale_zeropoint_total nd nx t.1 t.2). eauto.
        -- eapply IH; eauto.
      * apply elem_of_cons in Hin as [[= -> ->]|Hin].
        -- exists o. split; [by rewrite Eo | congruence].
        -- eapply IH; eauto.
    + intros Hall.
      destruct (Hall index nd (list_elem_of_here _ _)) as (o & Ho & Hnext).
      assert (Hrest : forall i n, (i, n) ∈ todo ->
                exists o, head (output n) = Some o
                  /\ (dict_mem th o = true ->
                      exists next_node, nodes !! (i + 1) = Some next_node
                        /\ (op_type next_node = "Clip"
                            -> 2 <= length (attribute next_node)))).
      { intros i n Hin. apply Hall. by right. }
      destruct (output nd) as [|o' os]; [done|]. injection Ho as ->.
      rewrite subscript_head. rsimpl.
      destruct (dict_mem th o) eqn:Hmem; [|by apply IH].
      destruct (dict_mem_item _ _ Hmem) as [t ->]. rsimpl.
      destruct (Hnext eq_refl) as (nx & Hnx & Hattr).
      rewrite (proj2 (subscript_Ok NextNode _ _ _) Hnx). rsimpl.
      destruct (proj1 (calculate_scale_zeropoint_total nd nx t.1 t.2) Hattr)
        as [p ->]. rsimpl.
      by apply IH.
Qed.

(** X15.  With bit width 8 and thresholds given,
    [calculate_quantization_params] returns a dictionary exactly when every
    node of the graph has an output and every node whose first output has a
    statistics entry is followed in the node list by a node that, if it is a
    [Clip], has at least two attributes. *)
Theorem derivation_succeeds_iff (model : ModelProto)
    (thresholds : dict (Q * Q)) :
  (exists params,
     calculate_quantization_params model 8 (Some thresholds) = Ok params)
  <-> forall i nd, node (graph model) !! i = Some nd ->
        exists o, head (output nd) = Some o
          /\ (dict_mem thresholds o = true ->
              exists next_node, node (graph model) !! (i + 1) = Some next_node
                /\ (op_type next_node = "Clip"
                    -> 2 <= length (attribute next_node))).
Proof.
  unfold calculate_quantization_params.
  change (negb (8 =? 8)%Z) with false. cbv iota.
  rewrite params_loop_total. split.
  - intros H i nd Hi. apply H. by apply enumerate_elem.
  - intros H i nd Hi. apply H. by apply enumerate_elem.
Qed.

(** ** [main]: the object it loads and augments *)

Lemma augment_graph_fresh_object (h : heap) (loaded : ModelProto) :
  (exists e, augment_graph (length h) (h ++ [loaded]) = (Raise e, h ++ [loaded]))
  \/ (exists added_nodes added_outputs,
        augment_loop (node (graph loaded)) [] [] = Ok (added_nodes, added_outputs)
        /\ augment_graph (length h) (h ++ [loaded])
           = (Ok (length h),
              h ++ [extend_graph loaded added_nodes added_outputs])).
Proof.
  unfold augment_graph. rewrite list_lookup_middle by done.
  destruct (augment_loop (node (graph loaded)) [] [])
    as [[added_nodes added_outputs]|e]; [right | left; eauto].
  exists added_nodes, added_outputs. split; [done|]. f_equal.
  rewrite insert_app_r_alt by lia. by rewrite Nat.sub_diag.
Qed.

(** X17.  When [main] obtains the parameters, it has written the augmented
    model to [augmented_model.onnx], the object it loaded is that augmented
    model, no other object was created, and inference has been run once on
    every sample, in order. *)
Theorem main_success_state {tensor}
    (engine : ModelProto -> InferenceSession tensor)
    (model_path calib_mode : string) (inputs : list tensor)
    (w : world tensor) (original : ModelProto) (params : dict (Z * Q)) :
  w_files w !! model_path = Some original ->
  fst (main engine model_path calib_mode inputs w) = Ok params ->
  exists added_nodes added_outputs,
    augment_loop (node (graph original)) [] [] = Ok (added_nodes, added_outputs)
    /\ snd (main engine model_path calib_mode inputs w)
       = {| w_heap := w_heap w ++ [extend_graph original added_nodes added_outputs];
            w_files := <[augmented_model_path :=
                           extend_graph original added_nodes added_outputs]>
                         (w_files w);
            w_calls := w_calls w ++ inputs |}.
Proof.
  intros Hfile Hok.
  destruct (main engine model_path calib_mode inputs w) as [r w'] eqn:Hmain.
  cbn [fst] in Hok. subst r. cbn [snd].
  unfold main, onnx_load in Hmain. rewrite Hfile in Hmain.
  destruct (augment_graph_fresh_object (w_heap w) original)
    as [[e He]|(added_nodes & added_outputs & Hloop & Haug)];
    rewrite ?He, ?Haug in Hmain; [done|].
  set (augmented := extend_graph original added_nodes added_outputs) in *.
  rewrite list_lookup_middle, lookup_insert_eq in Hmain by done.
  destruct (_ ≫= _) as [shape|e] in Hmain; [|done].
  destruct (get_intermediate_outputs _ _ _ _ _ _) as [[stats|e] calls] eqn:Hrun;
    [|done].
  injection Hmain as _ <-.
  exists added_nodes, added_outputs. split; [done|]. do 2 f_equal.
  unfold get_intermediate_outputs in Hrun.
  destruct (onnx_load _ model_path); [|done].
  destruct (subscript SessionInputs _ 0); [|done].
  rewrite run_samples_spec in Hrun. by injection Hrun as _ <-.
Qed.

Lemma main_success_state_witness :
  w_calls (snd (main (fun _ => Fixtures.session) "single.onnx" "naive" [3; 1; 2]
                  (Build_world [] Fixtures.single_files [])))
  = [3; 1; 2].
Proof.
  destruct (main_success_state (fun _ => Fixtures.session)
              "single.onnx" "naive" [3; 1; 2]
              (Build_world [] Fixtures.single_files [])
              (Fixtures.model_of [Fixtures.conv])
              [("y", (0%Z, (4 # 255)%Q))] eq_refl eq_refl)
    as (added_nodes & added_outputs & _ & ->).
  reflexivity.
Defined.

Lemma params_loop_no_statistics nodes todo params :
  Forall (fun ind : nat * NodeProto => output (snd ind) <> []) todo ->
  params_loop nodes [] todo params = Ok params.
Proof.
  induction 1 as [|[i nd] todo Hnd _ IH]; simpl; [done|].
  simpl in Hnd. destruct (output nd) as [|o os]; [done|].
  by rewrite subscript_head.
Qed.

Lemma enumerate_from_Forall {A} (P : A -> Prop) (l : list A) (start : nat) :
  Forall P l -> Forall (fun ix : nat * A => P (snd ix)) (enumerate_from start l).
Proof.
  intros H. revert start. induction H as [|x l Hx _ IH]; intros start; simpl;
    constructor; auto.
Qed.

(** X18.  When the model to calibrate is itself stored at
    [augmented_model.onnx], [main] overwrites it with its augmentation before
    [get_intermediate_outputs] reads it back, so that all outputs, probes
    included, count as original: in naive mode, with a session that declares
    as many outputs as the augmented graph, the statistics and hence the
    returned parameters are empty. *)
Theorem main_on_augmented_path {tensor}
    (engine : ModelProto -> InferenceSession tensor) (inputs : list tensor)
    (w : world tensor) (original : ModelProto) (input0 : NodeArg) :
  let augmented :=
    extend_graph original
      (flat_map (fun nd => [min_probe_node nd; max_probe_node nd])
                (List.filter eligible (node (graph original))))
      (flat_map (fun nd => [min_probe_output nd; max_probe_output nd])
                (List.filter eligible (node (graph original)))) in
  w_files w !! augmented_model_path = Some original ->
  Forall (fun nd => output nd <> []) (node (graph original)) ->
  get_inputs (engine augmented) !! 0 = Some input0 ->
  length (arg_shape input0) = 4 ->
  length (get_outputs (engine augmented))
  = length (graph_output (graph augmented)) ->
  inputs <> [] ->
  Forall (fun x => length (run (engine augmented) x)
                   = length (get_outputs (engine augmented))) inputs ->
  fst (main engine augmented_model_path "naive" inputs w) = Ok [].
Proof.
  intros augmented Hfile Hout Hin Hshape Hdecl Hne Hruns.
  assert (Hspec := augment_loop_spec (node (graph original)) [] []
                     (Forall_impl _ _ _ Hout (fun nd H _ => H))).
  cbn [app] in Hspec.
  unfold main, onnx_load at 1. rewrite Hfile.
  destruct (augment_graph_fresh_object (w_heap w) original)
    as [[e He]|(added_nodes & added_outputs & Hloop & ->)].
  { unfold augment_graph in He. rewrite list_lookup_middle in He by done.
    by rewrite Hspec in He. }
  rewrite Hspec in Hloop. injection Hloop as <- <-. fold augmented.
  rewrite !list_lookup_middle by done.
  unfold onnx_load at 1. rewrite lookup_insert_eq.
  rewrite (proj2 (subscript_Ok SessionInputs _ _ _) Hin). rsimpl.
  destruct (arg_shape input0) as [|a [|b [|c [|d [|? ?]]]]]; try done.
  cbn [unpack4].
  unfold get_intermediate_outputs, onnx_load. rewrite lookup_insert_eq.
  rewrite (proj2 (subscript_Ok SessionInputs _ _ _) Hin), run_samples_spec.
  destruct inputs as [|x rest]; [done|]. cbn [map].
  rewrite aggregate_naive by exact (Forall_inv Hruns).
  rewrite drop_ge by (rewrite length_map; lia).
  cbn [naive_pairs even_positions map dict_zip combine fold_left]. rsimpl.
  cbn [fst].
  unfold calculate_quantization_params. change (negb (8 =? 8)%Z) with false.
  cbv iota. apply params_loop_no_statistics.
  apply (enumerate_from_Forall (fun nd => output nd <> [])).
  simpl. apply Forall_app. split; [done|].
  apply Forall_forall. intros nd Hnd.
  apply list_elem_of_In, in_flat_map in Hnd as (c' & _ & [<-|[<-|[]]]); done.
Qed.

Lemma main_on_augmented_path_witness :
  fst (main (fun _ => Fixtures.session) augmented_model_path "naive" [3; 1; 2]
         (Build_world [] Tensors.augmented_files []))
  = Ok [].
Proof.
  apply (main_on_augmented_path (fun _ => Fixtures.session) [3; 1; 2]
           (Build_world [] Tensors.augmented_files [])
           (Fixtures.model_of [Fixtures.conv])
           {| arg_name := "x"; arg_shape := [1; 3; 2; 2]%Z |});
    try reflexivity; try discriminate; repeat constructor; discriminate.
Defined.

(** ** [load_pb_file]: shape check and samples *)

Lemma np_reshape_Ok (a : ndarray) (newshape : list nat) :
  product newshape = length (arr_data a) ->
  np_reshape a newshape = Ok {| arr_shape := newshape; arr_data := arr_data a |}.
Proof. intros H. unfold np_reshape. by rewrite (proj2 (Nat.eqb_eq _ _) H). Qed.

Lemma np_reshape_Raise (a : ndarray) (newshape : list nat) :
  product newshape <> length (arr_data a) ->
  np_reshape a newshape = Raise (ValueError "cannot reshape array").
Proof. intros H. unfold np_reshape. by rewrite (proj2 (Nat.eqb_neq _ _) H). Qed.

Lemma to_array_Ok (tensor : TensorProto) :
  product (dims tensor) = length (float_data tensor) ->
  to_array tensor
  = Ok {| arr_shape := dims tensor; arr_data := float_data tensor |}.
Proof. intros H. unfold to_array. by rewrite np_reshape_Ok. Qed.

Lemma to_array_Raise (tensor : TensorProto) :
  product (dims tensor) <> length (float_data tensor) ->
  to_array tensor = Raise (ValueError "cannot reshape array").
Proof. intros H. unfold to_array. by rewrite np_reshape_Raise. Qed.

(** X19.  For a tensor file whose dimensions agree with its data,
    [load_pb_file] returns exactly when
    [dataset_size * samples * channels * height * width] is the number of
    elements of the tensor, and then the array has that five-dimensional shape
    and the file's elements in their order; otherwise it leaves through
    [sys.exit], reporting the required size and the shape found in the file.
    It raises nothing in either case. *)
Theorem load_pb_file_shape_check (pb_files : gmap string TensorProto)
    (data_file_name : string) (tensor : TensorProto)
    (dataset_size samples channels height width : nat) :
  pb_files !! data_file_name = Some tensor ->
  product (dims tensor) = length (float_data tensor) ->
  let required := [dataset_size; samples; channels; height; width] in
  let outcome := load_pb_file pb_files data_file_name
                   dataset_size samples channels height width in
  (dataset_size * samples * channels * height * width
   = length (float_data tensor) ->
   outcome = PbReturn {| arr_shape := required; arr_data := float_data tensor |})
  /\ (dataset_size * samples * channels * height * width
      <> length (float_data tensor) ->
      outcome = PbExit required (dims tensor)).
Proof.
  intros Hfile Hdims required outcome. unfold outcome, load_pb_file.
  rewrite Hfile, (to_array_Ok _ Hdims). cbn [arr_shape].
  split; intros H.
  - rewrite np_reshape_Ok; [done|]. simpl. lia.
  - rewrite np_reshape_Raise; [done|]. simpl. lia.
Qed.

Lemma load_pb_file_shape_check_witness :
  load_pb_file Tensors.pb_files "data.pb" 3 1 1 1 2
  = PbReturn {| arr_shape := [3; 1; 1; 1; 2];
                arr_data := [1; 2; 3; 4; 5; 6]%Q |}
  /\ load_pb_file Tensors.pb_files "data.pb" 30 1 3 2 2
     = PbExit [30; 1; 3; 2; 2] [2; 3].
Proof.
  split.
  - apply (load_pb_file_shape_check Tensors.pb_files "data.pb"
             Tensors.two_by_three 3 1 1 1 2 eq_refl eq_refl). reflexivity.
  - apply (load_pb_file_shape_check Tensors.pb_files "data.pb"
             Tensors.two_by_three 30 1 3 2 2 eq_refl eq_refl). discriminate.
Defined.

(** X20.  The shape check covers only the reshape to the requested size:
    a missing file makes [load_pb_file] raise [FileNotFoundError], and a
    tensor whose own dimensions disagree with its data makes it raise the
    [ValueError] of [to_array], in both cases whatever size is requested and
    without the message about sizes. *)
Theorem load_pb_file_raises (pb_files : gmap string TensorProto)
    (data_file_name : string)
    (dataset_size samples channels height width : nat) :
  let outcome := load_pb_file pb_files data_file_name
                   dataset_size samples channels height width in
  (pb_files !! data_file_name = None ->
   outcome = PbRaise (FileNotFoundError data_file_name))
  /\ (forall tensor,
        pb_files !! data_file_name = Some tensor ->
        product (dims tensor) <> length (float_data tensor) ->
        outcome = PbRaise (ValueError "cannot reshape array"))
  /\ (forall e, outcome = PbRaise e ->
        pb_files !! data_file_name = None
        \/ exists tensor, pb_files !! data_file_name = Some tensor
             /\ product (dims tensor) <> length (float_data tensor)).
Proof.
  intros outcome. unfold outcome, load_pb_file. split; [by intros ->|]. split.
  - intros tensor -> Hne. by rewrite (to_array_Raise _ Hne).
  - intros e. destruct (pb_files !! data_file_name) as [tensor|]; [|by left].
    intros He. right. exists tensor. split; [done|]. intros Heq.
    rewrite (to_array_Ok _ Heq) in He.
    by destruct (np_reshape _ _) in He.
Qed.

Lemma load_pb_file_raises_witness :
  load_pb_file Tensors.pb_files "none.pb" 3 1 1 1 2
  = PbRaise (FileNotFoundError "none.pb")
  /\ load_pb_file Tensors.pb_files "bad.pb" 3 1 1 1 1
     = PbRaise (ValueError "cannot reshape array").
Proof.
  split.
  - apply (load_pb_file_raises Tensors.pb_files "none.pb" 3 1 1 1 2).
    reflexivity.
  - apply (proj1 (proj2 (load_pb_file_raises Tensors.pb_files "bad.pb" 3 1 1 1 1))
             Tensors.malformed); [reflexivity | discriminate].
Defined.

Lemma product_chunks (n width : nat) (l : list Q) :
  length l = n * width ->
  concat (map (fun i => take width (drop (i * width) l)) (seq 0 n)) = l
  /\ Forall (fun chunk => length chunk = width)
            (map (fun i => take width (drop (i * width) l)) (seq 0 n)).
Proof.
  revert l. induction n as [|n IH]; intros l Hlen.
  - simpl in *. split; [|constructor]. by destruct l.
  - destruct (IH (drop width l)) as [Hcat Hall].
    { rewrite length_drop. lia. }
    assert (Hshift : map (fun i => take width (drop (i * width) l)) (seq 1 n)
                     = map (fun i => take width (drop (i * width) (drop width l)))
                           (seq 0 n)).
    { rewrite <- seq_shift, map_map. apply map_ext. intros i.
      rewrite drop_drop. f_equal; f_equal; lia. }
    cbn [seq map concat]. rewrite Hshift. split.
    + rewrite Hcat. simpl. rewrite drop_0. apply take_drop.
    + constructor; [|done]. simpl. rewrite drop_0, length_take. lia.
Qed.

(** X21.  The array [load_pb_file] returns is consumed by
    [get_intermediate_outputs] as [dataset_size] samples of shape
    [(samples, channels, height, width)], each of
    [samples * channels * height * width] elements, which are, sample after
    sample, the elements of the file in their order. *)
Theorem loaded_samples (pb_files : gmap string TensorProto)
    (data_file_name : string) (inputs : ndarray)
    (dataset_size samples channels height width : nat) :
  load_pb_file pb_files data_file_name dataset_size samples channels height width
  = PbReturn inputs ->
  exists tensor rows,
    pb_files !! data_file_name = Some tensor
    /\ samples_of inputs = Ok rows
    /\ length rows = dataset_size
    /\ Forall (fun row => arr_shape row = [samples; channels; height; width]
                          /\ length (arr_data row)
                             = samples * channels * height * width) rows
    /\ concat (map arr_data rows) = float_data tensor.
Proof.
  unfold load_pb_file.
  destruct (pb_files !! data_file_name) as [tensor|]; [|done].
  destruct (Nat.eq_dec (product (dims tensor)) (length (float_data tensor)))
    as [Hdims|Hdims]; [|by rewrite (to_array_Raise _ Hdims)].
  rewrite (to_array_Ok _ Hdims).
  destruct (Nat.eq_dec (product [dataset_size; samples; channels; height; width])
              (length (float_data tensor))) as [Hsize|Hsize];
    [|by rewrite np_reshape_Raise].
  rewrite np_reshape_Ok by done. cbn [arr_data].
  intros [= <-]. unfold samples_of. cbn [arr_shape arr_data].
  set (width' := product [samples; channels; height; width]).
  assert (Hlen : length (float_data tensor) = dataset_size * width')
    by (rewrite <- Hsize; reflexivity).
  destruct (product_chunks dataset_size width' _ Hlen) as [Hcat Hall].
  eexists tensor, _. split; [done|]. split; [reflexivity|].
  split; [by rewrite length_map, length_seq|]. split.
  - apply Forall_map, Forall_forall. intros i Hi. cbn [arr_shape arr_data].
    split; [done|].
    rewrite Forall_map in Hall. rewrite Forall_forall in Hall.
    rewrite (Hall i Hi). unfold width'. simpl.
    by rewrite Nat.mul_1_r, !Nat.mul_assoc.
  - rewrite map_map. cbn [arr_data]. exact Hcat.
Qed.

Lemma loaded_samples_witness :
  exists rows,
    samples_of {| arr_shape := [3; 1; 1; 1; 2];
                  arr_data := [1; 2; 3; 4; 5; 6]%Q |} = Ok rows
    /\ length rows = 3
    /\ concat (map arr_data rows) = [1; 2; 3; 4; 5; 6]%Q.
Proof.
  destruct (loaded_samples Tensors.pb_files "data.pb"
              {| arr_shape := [3; 1; 1; 1; 2];
                 arr_data := [1; 2; 3; 4; 5; 6]%Q |} 3 1 1 1 2 eq_refl)
    as (tensor & rows & Hfile & Hrows & Hlen & _ & Hcat).
  injection Hfile as <-. exists rows. by repeat split.
Defined.

(** * Properties of the run-time model *)

(** ** Comparisons of floating-point values *)

Lemma float_lt_Finite (x y : Q) :
  Runtime.float_lt (Runtime.Finite x) (Runtime.Finite y) = Qlt_bool x y.
Proof. reflexivity. Qed.

Lemma float_lt_irrefl (a : Runtime.float) : Runtime.float_lt a a = false.
Proof. destruct a as [x| | |]; simpl; try done. apply Qlt_bool_false. lra. Qed.

Lemma float_lt_not_nan (a b : Runtime.float) :
  Runtime.float_lt a b = true -> a <> Runtime.NaN /\ b <> Runtime.NaN.
Proof. by destruct a, b. Qed.

Lemma float_lt_asym (a b : Runtime.float) :
  Runtime.float_lt a b = true -> Runtime.float_lt b a = false.
Proof.
  destruct a as [x| | |], b as [y| | |]; simpl; try done.
  intros H%Qlt_bool_true. apply Qlt_bool_false. lra.
Qed.

Lemma float_lt_le (a b : Runtime.float) :
  Runtime.float_lt a b = true -> Runtime.float_le a b.
Proof.
  intros H. destruct (float_lt_not_nan a b H) as [Ha Hb].
  split; [done|]. split; [done|]. by apply float_lt_asym.
Qed.

Lemma float_le_refl (a : Runtime.float) :
  a <> Runtime.NaN -> Runtime.float_le a a.
Proof. intros Ha. split; [done|]. split; [done|]. apply float_lt_irrefl. Qed.

Lemma float_le_trans (a b c : Runtime.float) :
  Runtime.float_le a b -> Runtime.float_le b c -> Runtime.float_le a c.
Proof.
  intros (Ha & Hb & Hab) (_ & Hc & Hbc). split; [done|]. split; [done|].
  destruct a as [x| | |], b as [y| | |], c as [z| | |]; simpl in *; try done.
  apply Qlt_bool_false in Hab, Hbc. apply Qlt_bool_false. lra.
Qed.

Lemma float_le_antisym (a b : Runtime.float) :
  Runtime.float_le a b -> Runtime.float_le b a -> Runtime.float_eq a b = true.
Proof.
  intros (Ha & Hb & Hab) (_ & _ & Hba).
  destruct a as [x| | |], b as [y| | |]; simpl in *; try done.
  apply Qlt_bool_false in Hab, Hba. apply Qeq_bool_iff. lra.
Qed.

(** ** The zero point is a byte, whatever the arithmetic *)

Section ZeroPoint.
Context {N : Runtime.Numbers}.

(** Line 122: the clamp absorbs the infinities and NaN, so that [round]
    never raises and [np.uint8] never wraps. *)
Lemma round_clamp_float (x : Runtime.num) :
  exists z,
    Runtime.py_round_float
      (Runtime.val (Runtime.py_max (Runtime.of_int 0)
                      (Runtime.py_min (Runtime.of_int 255) x))) = Ok z
    /\ (0 <= z <= 255)%Z.
Proof.
  unfold Runtime.py_max, Runtime.py_min.
  rewrite !Runtime.val_of_int.
  destruct (Runtime.float_lt (Runtime.val x) (Runtime.Finite (inject_Z 255)))
    eqn:E255.
  - destruct (Runtime.float_lt (Runtime.Finite (inject_Z 0)) (Runtime.val x))
      eqn:E0.
    + destruct (Runtime.val x) as [q| | |]; try done.
      rewrite float_lt_Finite in E255, E0.
      apply Qlt_bool_true in E255, E0.
      exists (py_round q). split; [done|].
      apply py_round_between; lra.
    + rewrite Runtime.val_of_int. exists (py_round (inject_Z 0)).
      split; [done|]. by vm_compute.
  - rewrite Runtime.val_of_int.
    replace (Runtime.float_lt (Runtime.Finite (inject_Z 0))
               (Runtime.Finite (inject_Z 255))) with true by reflexivity.
    rewrite Runtime.val_of_int. exists (py_round (inject_Z 255)).
    split; [done|]. by vm_compute.
Qed.

Lemma zero_point_of_range_total (rmin scale : Runtime.num) :
  exists zp, Runtime.zero_point_of_range rmin scale = Ok zp
             /\ (0 <= zp <= 255)%Z.
Proof.
  unfold Runtime.zero_point_of_range.
  destruct (round_clamp_float
              (Runtime.div (Runtime.sub (Runtime.of_int 0) rmin) scale))
    as (z & -> & Hz).
  rsimpl. exists (np_uint8 z). split; [done|].
  unfold np_uint8. rewrite Z.mod_small; lia.
Qed.

Lemma adjust_range_raises_float (next_node : NodeProto)
    (lo hi : Runtime.num) (e : exn) :
  Runtime.adjust_range next_node lo hi = Raise e -> e = IndexError ClipAttribute.
Proof.
  unfold Runtime.adjust_range.
  destruct (String.eqb (op_type next_node) "Clip"); [|discriminate].
  unfold subscript.
  destruct (attribute next_node !! 0); simpl; [|congruence].
  destruct (attribute next_node !! 1); simpl; [discriminate|congruence].
Qed.


End ZeroPoint.



(** C5 (as amended).  The first step of [calculate_scale_zeropoint] puts
    zero into the range of every entry whose ends are numbers: the lower end
    becomes at most zero and the upper end at least zero; an end that is NaN
    is left as it is, every comparison with NaN being false.  The parameters
    depend on the entry only through the range so widened. *)
Theorem zero_inclusion_inside_derivation {N : Runtime.Numbers}
    (nd next_node : NodeProto) (rmin rmax : Runtime.num) :
  let '(lo, hi) := Runtime.zero_clamp rmin rmax in
  (Runtime.val rmin <> Runtime.NaN ->
   Runtime.float_le (Runtime.val lo) (Runtime.Finite 0))
  /\ (Runtime.val rmax <> Runtime.NaN ->
      Runtime.float_le (Runtime.Finite 0) (Runtime.val hi))
  /\ (Runtime.val rmin = Runtime.NaN -> lo = rmin)
  /\ (Runtime.val rmax = Runtime.NaN -> hi = rmax)
  /\ Runtime.calculate_scale_zeropoint nd next_node lo hi
     = Runtime.calculate_scale_zeropoint nd next_node rmin rmax.
Proof.
  unfold Runtime.zero_clamp, Runtime.py_min, Runtime.py_max.
  rewrite !Runtime.val_of_int.
  assert (H0 : Runtime.Finite (inject_Z 0) <> Runtime.NaN) by done.
  repeat apply conj.
  - intros Hn.
    destruct (Runtime.float_lt (Runtime.Finite (inject_Z 0)) (Runtime.val rmin))
      eqn:E.
    + rewrite Runtime.val_of_int. by apply float_le_refl.
    + done.
  - intros Hn.
    destruct (Runtime.float_lt (Runtime.val rmax) (Runtime.Finite (inject_Z 0)))
      eqn:E.
    + rewrite Runtime.val_of_int. by apply float_le_refl.
    + done.
  - intros Hn. rewrite Hn. by destruct (Runtime.val (Runtime.of_int 0)).
  - intros Hn. by rewrite Hn.
  - unfold Runtime.calculate_scale_zeropoint, Runtime.zero_clamp,
      Runtime.py_min, Runtime.py_max.
    rewrite !Runtime.val_of_int.
    destruct (Runtime.float_lt (Runtime.Finite (inject_Z 0)) (Runtime.val rmin))
      eqn:E1;
    destruct (Runtime.float_lt (Runtime.val rmax) (Runtime.Finite (inject_Z 0)))
      eqn:E2;
      rewrite ?Runtime.val_of_int, ?E1, ?E2, ?float_lt_irrefl; reflexivity.
Qed.

Lemma zero_inclusion_inside_derivation_witness :
  Runtime.float_le (Runtime.Finite 0) (Runtime.Finite 0)
  /\ Runtime.float_le (Runtime.Finite 0) (Runtime.Finite 4).
Proof.
  pose proof (zero_inclusion_inside_derivation (N := Runtime.exact)
                Fixtures.conv Fixtures.relu
                (Runtime.Finite 1) (Runtime.Finite 4)) as H.
  cbv beta iota delta [Runtime.zero_clamp Runtime.py_min Runtime.py_max] in H.
  destruct H as (Hlo & Hhi & _).
  split; [apply Hlo | apply Hhi]; discriminate.
Defined.

(** ** Inference calls and their failures *)

Section Runs.
Context {N : Runtime.Numbers} {tensor : Type}.
Variable session : Runtime.InferenceSession tensor.
Variable input_name : string.

Lemma run_samples_returns (inputs calls : list tensor)
    (snapshots : list (list Runtime.value)) :
  Forall2 (fun x outs => Runtime.run session x = Ok outs) inputs snapshots ->
  Runtime.run_samples session input_name inputs calls
  = (Ok snapshots, calls ++ inputs).
Proof.
  intros Hall. revert calls.
  induction Hall as [|x outs inputs snapshots Hx Hall IH]; intros calls; simpl.
  - by rewrite app_nil_r.
  - unfold Runtime.session_run. rewrite Hx, IH. by rewrite <- app_assoc.
Qed.

(** Line 75 either runs every sample, or stops at the first run that
    raises. *)
Lemma run_samples_cases (inputs calls : list tensor) :
  (exists snapshots,
      Forall2 (fun x outs => Runtime.run session x = Ok outs) inputs snapshots
      /\ Runtime.run_samples session input_name inputs calls
         = (Ok snapshots, calls ++ inputs))
  \/ (exists before x after e,
        inputs = before ++ x :: after
        /\ Forall (fun y => exists outs, Runtime.run session y = Ok outs) before
        /\ Runtime.run session x = Raise e
        /\ Runtime.run_samples session input_name inputs calls
           = (Raise e, calls ++ before ++ [x])).
Proof.
  revert calls. induction inputs as [|x inputs IH]; intros calls.
  - left. exists []. split; [constructor|]. simpl. by rewrite app_nil_r.
  - cbn [Runtime.run_samples]. unfold Runtime.session_run.
    destruct (Runtime.run session x) as [outs|e] eqn:Ex.
    + destruct (IH (calls ++ [x]))
        as [(snapshots & Hall & ->)
           |(before & y & after & e & -> & Hbefore & Hy & ->)].
      * left. exists (outs :: snapshots).
        split; [by constructor|]. by rewrite <- app_assoc.
      * right. exists (x :: before), y, after, e.
        split; [done|]. split; [constructor; eauto|]. split; [done|].
        by rewrite <- app_assoc.
    + right. exists [], x, inputs, e. repeat split; [constructor|done].
Qed.
End Runs.

Lemma aggregate_unknown_mode_float {N : Runtime.Numbers} {tensor}
    (session : Runtime.InferenceSession tensor)
    (num_model_outputs : nat) (first : list Runtime.value)
    (more : list (list Runtime.value)) (calib_mode : string) :
  calib_mode <> "naive" ->
  length first <= length (Runtime.get_outputs session) ->
  Runtime.aggregate session num_model_outputs (first :: more) calib_mode
  = Raise unknown_calib_mode.
Proof.
  intros Hmode Hlen. unfold Runtime.aggregate.
  rewrite subscript_head. rsimpl.
  rewrite output_names_prefix by (simpl; lia). rsimpl.
  apply String.eqb_neq in Hmode. by rewrite Hmode.
Qed.

Lemma aggregate_never_Ok_unknown_mode_float {N : Runtime.Numbers} {tensor}
    (session : Runtime.InferenceSession tensor)
    (num_model_outputs : nat) (snapshots : list (list Runtime.value))
    (calib_mode : string) :
  calib_mode <> "naive" ->
  exists e,
    Runtime.aggregate session num_model_outputs snapshots calib_mode = Raise e.
Proof.
  intros Hmode. unfold Runtime.aggregate. apply String.eqb_neq in Hmode.
  rewrite Hmode.
  destruct (subscript FirstSnapshot snapshots 0) as [first|e]; rsimpl; [|eauto].
  destruct (mapM _ _) as [names|e]; rsimpl; eauto.
Qed.

(** C1 (as amended).  With an aggregation mode other than "naive", a
    loadable model file and a session that declares an input,
    [get_intermediate_outputs] raises in every case, and never before
    inference: the session is first run on the samples, in dataset order.
    Either a run raises, and its exception is the outcome, the samples after
    it not being run; or every run returns, and the call raises once all the
    samples have been run, with the configuration error of line 94 when the
    dataset is non-empty and the session declares a name for each value of
    the first snapshot. *)
Theorem unknown_mode_raises_after_inference {N : Runtime.Numbers} {tensor}
    (files : gmap string ModelProto) (model_path : string)
    (session : Runtime.InferenceSession tensor) (inputs : list tensor)
    (calib_mode : string) (calls : list tensor)
    (model : ModelProto) (input0 : NodeArg) :
  calib_mode <> "naive" ->
  files !! model_path = Some model ->
  Runtime.get_inputs session !! 0 = Some input0 ->
  (exists before x after e,
      inputs = before ++ x :: after
      /\ Forall (fun y => exists outs, Runtime.run session y = Ok outs) before
      /\ Runtime.run session x = Raise e
      /\ Runtime.get_intermediate_outputs files model_path session inputs
           calib_mode calls
         = (Raise e, calls ++ before ++ [x]))
  \/ (exists snapshots e,
        Forall2 (fun x outs => Runtime.run session x = Ok outs) inputs snapshots
        /\ Runtime.get_intermediate_outputs files model_path session inputs
             calib_mode calls
           = (Raise e, calls ++ inputs)
        /\ (forall first rest, snapshots = first :: rest ->
              length first <= length (Runtime.get_outputs session) ->
              e = unknown_calib_mode)).
Proof.
  intros Hmode Hfile Hin. unfold Runtime.get_intermediate_outputs, onnx_load.
  rewrite Hfile, (proj2 (subscript_Ok SessionInputs _ _ _) Hin).
  destruct (run_samples_cases session (arg_name input0) inputs calls)
    as [(snapshots & Hall & ->)|(before & x & after & e & -> & Hbefore & Hx & ->)].
  - right.
    destruct (aggregate_never_Ok_unknown_mode_float session
                (length (graph_output (graph model))) snapshots calib_mode Hmode)
      as [e He].
    exists snapshots, e. split; [done|]. split; [by rewrite He|].
    intros first rest -> Hlen.
    rewrite aggregate_unknown_mode_float in He by done. congruence.
  - left. by exists before, x, after, e.
Qed.

Lemma unknown_mode_raises_after_inference_witness :
  Runtime.get_intermediate_outputs Fixtures.files "model.onnx" Runs.session
    [3; 1; 2] "entropy" []
  = (Raise unknown_calib_mode, [3; 1; 2]).
Proof.
  destruct (unknown_mode_raises_after_inference Fixtures.files "model.onnx"
              Runs.session [3; 1; 2] "entropy" []
              (Fixtures.model_of [Fixtures.conv; Fixtures.relu])
              {| arg_name := "x"; arg_shape := [1; 3; 2; 2]%Z |})
    as [(before & x & after & e & _ & _ & Hx & _)
       |(snapshots & e & Hall & Hrun & He)];
    [intros [=] | reflexivity | reflexivity | discriminate Hx |].
  rewrite Hrun. f_equal. f_equal.
  destruct snapshots as [|first rest]; [inversion Hall|].
  apply (He first rest eq_refl).
  apply Forall2_cons in Hall as [[= <-] _]. simpl. lia.
Defined.

(** X6.  Whatever the aggregation mode, once the model file has been read
    and the session declares an input, [get_intermediate_outputs] runs the
    session on the samples in dataset order and stops at the first run that
    raises: either every run returns, and the session has then been run
    exactly once on each sample; or the exception of the first failing run
    is the outcome, and the samples after it have not been run. *)
Theorem inference_once_per_sample {N : Runtime.Numbers} {tensor}
    (files : gmap string ModelProto) (model_path : string)
    (session : Runtime.InferenceSession tensor) (inputs : list tensor)
    (calib_mode : string) (calls : list tensor)
    (model : ModelProto) (input0 : NodeArg) :
  files !! model_path = Some model ->
  Runtime.get_inputs session !! 0 = Some input0 ->
  let outcome :=
    Runtime.get_intermediate_outputs files model_path session inputs
      calib_mode calls in
  (Forall (fun y => exists outs, Runtime.run session y = Ok outs) inputs
   /\ snd outcome = calls ++ inputs)
  \/ (exists before x after e,
        inputs = before ++ x :: after
        /\ Forall (fun y => exists outs, Runtime.run session y = Ok outs) before
        /\ Runtime.run session x = Raise e
        /\ outcome = (Raise e, calls ++ before ++ [x])).
Proof.
  intros Hfile Hin outcome. unfold outcome.
  unfold Runtime.get_intermediate_outputs, onnx_load.
  rewrite Hfile, (proj2 (subscript_Ok SessionInputs _ _ _) Hin).
  destruct (run_samples_cases session (arg_name input0) inputs calls)
    as [(snapshots & Hall & ->)|(before & x & after & e & -> & Hbefore & Hx & ->)].
  - left. split; [|done].
    clear -Hall. induction Hall; constructor; eauto.
  - right. by exists before, x, after, e.
Qed.

Lemma inference_once_per_sample_witness :
  Runtime.get_intermediate_outputs Fixtures.files "model.onnx" Runs.failing
    [3; 1; 2] "naive" [7]
  = (Raise (OrtError "Non-zero status code returned while running Conv node"),
     [7; 3; 1]).
Proof.
  destruct (inference_once_per_sample Fixtures.files "model.onnx"
              Runs.failing [3; 1; 2] "naive" [7]
              (Fixtures.model_of [Fixtures.conv; Fixtures.relu])
              {| arg_name := "x"; arg_shape := [1; 3; 2; 2]%Z |}
              eq_refl eq_refl)
    as [[Hall _]|(before & x & after & e & _ & _ & _ & Hrun)].
  - apply Forall_cons in Hall as [_ Hall].
    apply Forall_cons in Hall as [[outs Houts] _]. discriminate Houts.
  - reflexivity.
Defined.

(** ** [min] and [max] over values that are numbers *)

Lemma tensor_among {N : Runtime.Numbers} (l : list Runtime.value) :
  Runtime.Tensor ∈ l \/ Runtime.Tensor ∉ l.
Proof.
  induction l as [|[a|] l [IH|IH]].
  - right. by intros ?%elem_of_nil.
  - left. by right.
  - right. by intros [[=]|?]%elem_of_cons.
  - left. left.
  - left. left.
Qed.

Section Extremum.
Context {N : Runtime.Numbers}.
Variable lt : Runtime.float -> Runtime.float -> bool.
Variable le : Runtime.float -> Runtime.float -> Prop.
Hypothesis lt_true : forall a b, lt a b = true -> le a b.
Hypothesis lt_false :
  forall a b, a <> Runtime.NaN -> b <> Runtime.NaN -> lt a b = false -> le b a.
Hypothesis le_refl : forall a, a <> Runtime.NaN -> le a a.
Hypothesis le_trans : forall a b c, le a b -> le b c -> le a c.
Hypothesis le_antisym :
  forall a b, le a b -> le b a -> Runtime.float_eq a b = true.

Lemma scan_scalars (rest : list Runtime.value) (x : Runtime.num) :
  Runtime.Tensor ∉ rest ->
  Forall Runtime.not_nan (Runtime.Scalar x :: rest) ->
  exists r,
    rfold_left (Runtime.extremum_step lt) rest (Runtime.Scalar x)
    = Ok (Runtime.Scalar r)
    /\ Runtime.Scalar r ∈ Runtime.Scalar x :: rest
    /\ le (Runtime.val r) (Runtime.val x)
    /\ (forall q, Runtime.Scalar q ∈ rest -> le (Runtime.val r) (Runtime.val q)).
Proof using lt_true lt_false le_refl le_trans.
  revert x. induction rest as [|y rest IH]; intros x Hno Hnum.
  - exists x. apply Forall_inv in Hnum.
    repeat split; [left | by apply le_refl | by intros q ?%elem_of_nil].
  - apply not_elem_of_cons in Hno as [Hy Hno].
    apply Forall_cons in Hnum as [Hx Hnum].
    apply Forall_cons in Hnum as [Ha Hnum].
    destruct y as [a|]; [|done]. cbn [rfold_left Runtime.extremum_step]. rsimpl.
    simpl in Hx, Ha.
    destruct (lt (Runtime.val a) (Runtime.val x)) eqn:E.
    + destruct (IH a Hno) as (r & Hr & Hin & Hra & Hall); [by constructor|].
      exists r. repeat split; [done| |eauto|].
      * right. exact Hin.
      * intros q [[= ->]|Hq]%elem_of_cons; eauto.
    + destruct (IH x Hno) as (r & Hr & Hin & Hrx & Hall); [by constructor|].
      exists r. repeat split; [done| |done|].
      * apply elem_of_cons in Hin as [->|Hin]; [left | right; by right].
      * intros q [[= ->]|Hq]%elem_of_cons; eauto.
Qed.

Lemma scan_tensor (rest : list Runtime.value) (m : Runtime.value) :
  (m = Runtime.Tensor /\ rest <> []) \/ Runtime.Tensor ∈ rest ->
  rfold_left (Runtime.extremum_step lt) rest m = Raise ambiguous_truth.
Proof using Type.
  revert m. induction rest as [|y rest IH]; intros m H.
  - destruct H as [[_ []]|?%elem_of_nil]; done.
  - cbn [rfold_left].
    destruct m as [b|]; [|by destruct y].
    destruct y as [a|]; [|done].
    cbn [Runtime.extremum_step]. rsimpl. apply IH. right.
    destruct H as [[[=] _]|[[=]|H]%elem_of_cons]. exact H.
Qed.

Lemma scan_Permutation (x x' : Runtime.value) (rest rest' : list Runtime.value) :
  x :: rest ≡ₚ x' :: rest' ->
  Forall Runtime.not_nan (x :: rest) ->
  result_equiv Runtime.value_equiv
    (rfold_left (Runtime.extremum_step lt) rest x)
    (rfold_left (Runtime.extremum_step lt) rest' x').
Proof using All.
  intros Hperm Hnum.
  assert (Hnum' : Forall Runtime.not_nan (x' :: rest')) by (by rewrite <- Hperm).
  destruct (tensor_among (x :: rest)) as [Hin|Hno].
  - destruct rest as [|y rest].
    + apply Permutation_singleton_l in Hperm as [= <- <-].
      apply list_elem_of_singleton in Hin as <-. done.
    + assert (Hlen : length (x' :: rest') = length (x :: y :: rest))
        by (by rewrite Hperm).
      destruct rest' as [|y' rest']; [discriminate|].
      assert (Hin' : Runtime.Tensor ∈ x' :: y' :: rest') by (by rewrite <- Hperm).
      rewrite !scan_tensor; [done| |].
      * apply elem_of_cons in Hin' as [<-|H]; [by left | by right].
      * apply elem_of_cons in Hin as [<-|H]; [by left | by right].
  - assert (Hno' : Runtime.Tensor ∉ x' :: rest') by (by rewrite <- Hperm).
    apply not_elem_of_cons in Hno as [Hx Hno].
    apply not_elem_of_cons in Hno' as [Hx' Hno'].
    destruct x as [a|]; [|done]. destruct x' as [a'|]; [|done].
    destruct (scan_scalars rest a Hno Hnum) as (r & -> & Hin & Hra & Hall).
    destruct (scan_scalars rest' a' Hno' Hnum') as (r' & -> & Hin' & Hra' & Hall').
    simpl. apply le_antisym.
    + rewrite <- Hperm in Hin'.
      apply elem_of_cons in Hin' as [[= ->]|Hin']; eauto.
    + rewrite Hperm in Hin.
      apply elem_of_cons in Hin as [[= ->]|Hin]; eauto.
Qed.
End Extremum.

Section Aggregation.
Context {N : Runtime.Numbers}.

Lemma min_of_step (m y : Runtime.value) :
  (c ← Runtime.value_lt y m; Ok (if c : bool then y else m))
  = Runtime.extremum_step Runtime.float_lt m y.
Proof. by destruct m, y. Qed.

Lemma max_of_step (m y : Runtime.value) :
  (c ← Runtime.value_lt m y; Ok (if c : bool then y else m))
  = Runtime.extremum_step (fun a b => Runtime.float_lt b a) m y.
Proof. by destruct m, y. Qed.

Lemma min_of_Permutation (l l' : list Runtime.value) :
  l ≡ₚ l' -> Forall Runtime.not_nan l ->
  result_equiv Runtime.value_equiv (Runtime.min_of l) (Runtime.min_of l').
Proof.
  intros Hperm Hnum. destruct l as [|x rest].
  - apply Permutation_nil_l in Hperm. by subst l'.
  - destruct l' as [|x' rest']; [by apply Permutation_nil_r in Hperm|].
    unfold Runtime.min_of.
    rewrite (rfold_left_ext _ (Runtime.extremum_step Runtime.float_lt) rest x),
      (rfold_left_ext _ (Runtime.extremum_step Runtime.float_lt) rest' x')
      by apply min_of_step.
    apply (scan_Permutation Runtime.float_lt Runtime.float_le);
      [exact float_lt_le | by intros a b Ha Hb H; repeat split
      | exact float_le_refl | exact float_le_trans | exact float_le_antisym
      | done | done].
Qed.

Lemma max_of_Permutation (l l' : list Runtime.value) :
  l ≡ₚ l' -> Forall Runtime.not_nan l ->
  result_equiv Runtime.value_equiv (Runtime.max_of l) (Runtime.max_of l').
Proof.
  intros Hperm Hnum. destruct l as [|x rest].
  - apply Permutation_nil_l in Hperm. by subst l'.
  - destruct l' as [|x' rest']; [by apply Permutation_nil_r in Hperm|].
    unfold Runtime.max_of.
    rewrite (rfold_left_ext _
               (Runtime.extremum_step (fun a b => Runtime.float_lt b a)) rest x),
      (rfold_left_ext _
         (Runtime.extremum_step (fun a b => Runtime.float_lt b a)) rest' x')
      by apply max_of_step.
    apply (scan_Permutation (fun a b => Runtime.float_lt b a)
             (fun a b => Runtime.float_le b a));
      [by intros a b H; apply float_lt_le
      | by intros a b Ha Hb H; repeat split
      | exact float_le_refl
      | by intros a b c H1 H2; apply (float_le_trans c b a)
      | by intros a b H1 H2; apply float_le_antisym
      | done | done].
Qed.

Lemma py_float_equiv (v v' : Runtime.value) :
  Runtime.value_equiv v v' ->
  result_equiv Runtime.num_equiv (Runtime.py_float v) (Runtime.py_float v').
Proof.
  destruct v as [a|], v' as [b|]; simpl; try done.
  unfold Runtime.num_equiv. by rewrite !Runtime.val_to_float.
Qed.

Lemma dict_set_equiv (d d' : dict (Runtime.num * Runtime.num)) (k : string)
    (v v' : Runtime.num * Runtime.num) :
  Runtime.stats_equiv d d' -> Runtime.range_equiv v v' ->
  Runtime.stats_equiv (dict_set d k v) (dict_set d' k v').
Proof.
  intros Hd Hv.
  induction Hd as [|[k1 v1] [k2 v2] d d' [Hk Hr] Hd IH]; simpl.
  - constructor; [by split | constructor].
  - simpl in Hk. subst k2.
    destruct (String.eqb k1 k); constructor; done.
Qed.

Lemma dict_zip_equiv (ks : list string)
    (vs vs' : list (Runtime.num * Runtime.num)) :
  Forall2 Runtime.range_equiv vs vs' ->
  Runtime.stats_equiv (dict_zip ks vs) (dict_zip ks vs').
Proof.
  intros Hvs. unfold dict_zip.
  assert (Hnil : Runtime.stats_equiv [] []) by constructor.
  revert Hnil.
  generalize (@nil (string * (Runtime.num * Runtime.num))) at 1 3.
  generalize (@nil (string * (Runtime.num * Runtime.num))).
  revert ks. induction Hvs as [|v v' vs vs' Hv Hvs IH]; intros ks d' d Hd.
  - by destruct ks.
  - destruct ks as [|k ks]; [done|]. simpl.
    apply IH. by apply dict_set_equiv.
Qed.

(** *** Aggregation over a permuted list of snapshots *)

(** Every value a dictionary of columns holds is a number or a tensor. *)
Lemma dict_zip_values {V} (P : V -> Prop) (ks : list string) (vs : list V) :
  Forall P vs -> Forall (fun kv => P (snd kv)) (dict_zip ks vs).
Proof.
  intros Hvs. unfold dict_zip.
  assert (Hnil : Forall (fun kv : string * V => P (snd kv)) []) by constructor.
  revert Hnil. generalize (@nil (string * V)).
  revert ks. induction Hvs as [|v vs Hv Hvs IH]; intros ks d Hd.
  - by destruct ks.
  - destruct ks as [|k ks]; [done|]. simpl. apply IH.
    apply dict_set_Forall; [done|done|]. by intros k' v' _ _.
Qed.

Lemma collect_Forall {V} (P : V -> Prop) (k : string) (d : dict V) :
  Forall (fun kv => P (snd kv)) d -> Forall P (collect k d).
Proof.
  intros Hd. unfold collect. apply Forall_map.
  induction Hd as [|kv d Hkv Hd IH]; simpl; [constructor|].
  destruct (String.eqb (fst kv) k); [by constructor | done].
Qed.

Lemma merged_columns_Forall {V} (P : V -> Prop) (names : list string)
    (snapshots : list (list V)) (k : string) (col : list V) :
  Forall (Forall P) snapshots ->
  dict_get (clean_dict (merge_dicts (map (dict_zip names) snapshots))) k
  = Some col ->
  Forall P col.
Proof.
  intros Hall. rewrite dict_get_clean_dict.
  destruct (first_key _) as [first|]; [|done].
  destruct (String.eqb k first); [done|].
  rewrite dict_get_merge_dicts.
  assert (Hflat : Forall P (flat_map (collect k) (map (dict_zip names) snapshots))).
  { induction Hall as [|outs snapshots Houts Hall IH]; simpl; [constructor|].
    apply Forall_app. split; [|exact IH].
    by apply collect_Forall, dict_zip_values. }
  destruct (flat_map _ _) as [|v vs]; simpl; [done|].
  by intros [= <-].
Qed.

Lemma dict_item_agree (d d' : dict (list Runtime.value)) (k : string) :
  Runtime.lookups_agree d d' ->
  result_equiv (≡ₚ) (dict_item d k) (dict_item d' k).
Proof.
  intros H. unfold dict_item. by destruct (H k).
Qed.

Lemma dict_item_Forall {V} (P : V -> Prop) (d : dict (list V)) (k : string)
    (col : list V) :
  (forall k col, dict_get d k = Some col -> Forall P col) ->
  dict_item d k = Ok col -> Forall P col.
Proof.
  intros Hd. unfold dict_item.
  destruct (dict_get d k) as [c|] eqn:E; [|done].
  intros [= <-]. by apply (Hd k).
Qed.

Lemma naive_pairs_agree (d d' : dict (list Runtime.value)) (added : list string) :
  Runtime.lookups_agree d d' ->
  (forall k col, dict_get d k = Some col -> Forall Runtime.not_nan col) ->
  result_equiv (Forall2 Runtime.range_equiv)
    (Runtime.naive_pairs d added) (Runtime.naive_pairs d' added).
Proof.
  intros Hagree Hnum.
  assert (Hcol : forall k,
            result_equiv (fun c c' => c ≡ₚ c' /\ Forall Runtime.not_nan c)
              (dict_item d k) (dict_item d' k)).
  { intros k. pose proof (dict_item_agree d d' k Hagree) as H.
    destruct (dict_item d k) as [c|e] eqn:E, (dict_item d' k) as [c'|e'];
      simpl in *; try done.
    split; [done|]. by eapply dict_item_Forall. }
  cut (result_equiv (Forall2 Runtime.range_equiv)
         (Runtime.naive_pairs d added) (Runtime.naive_pairs d' added)
       /\ forall a, result_equiv (Forall2 Runtime.range_equiv)
                      (Runtime.naive_pairs d (a :: added))
                      (Runtime.naive_pairs d' (a :: added))).
  { by intros [H _]. }
  induction added as [|b added [IH0 IH1]].
  - split; [by constructor|]. intros a. cbn [Runtime.naive_pairs].
    eapply result_equiv_bind; [apply Hcol|]. intros mins mins' [Hmins Hn].
    eapply result_equiv_bind; [by apply min_of_Permutation|]. intros lo lo' Hlo.
    eapply result_equiv_bind; [by apply py_float_equiv|]. by intros.
  - split; [apply IH1|]. intros a. cbn [Runtime.naive_pairs].
    eapply result_equiv_bind; [apply Hcol|]. intros mins mins' [Hmins Hn].
    eapply result_equiv_bind; [by apply min_of_Permutation|]. intros lo lo' Hlo.
    eapply result_equiv_bind; [by apply py_float_equiv|]. intros qlo qlo' Hqlo.
    eapply result_equiv_bind; [apply Hcol|]. intros maxs maxs' [Hmaxs Hx].
    eapply result_equiv_bind; [by apply max_of_Permutation|]. intros hi hi' Hhi.
    eapply result_equiv_bind; [by apply py_float_equiv|]. intros qhi qhi' Hqhi.
    eapply result_equiv_bind; [exact IH0|]. intros pairs pairs' Hpairs.
    simpl. constructor; [by split | done].
Qed.

Lemma merge_dicts_agree (ds ds' : list (dict Runtime.value)) :
  ds ≡ₚ ds' -> Runtime.lookups_agree (merge_dicts ds) (merge_dicts ds').
Proof.
  intros Hperm k. rewrite !dict_get_merge_dicts.
  assert (H : flat_map (collect k) ds ≡ₚ flat_map (collect k) ds')
    by (by apply Permutation_flat_map).
  destruct (flat_map (collect k) ds) as [|v vs].
  - apply Permutation_nil_l in H. rewrite <- H. constructor.
  - destruct (flat_map (collect k) ds') as [|v' vs'].
    + by apply Permutation_nil_r in H.
    + simpl. by constructor.
Qed.

Lemma clean_dict_agree (d d' : dict (list Runtime.value)) :
  first_key d = first_key d' -> Runtime.lookups_agree d d' ->
  Runtime.lookups_agree (clean_dict d) (clean_dict d').
Proof.
  intros Hfirst Hagree k. rewrite !dict_get_clean_dict, <- Hfirst.
  destruct (first_key d) as [first|]; [|constructor].
  destruct (String.eqb k first); [constructor | apply Hagree].
Qed.

Lemma aggregate_Permutation {tensor} (session : Runtime.InferenceSession tensor)
    (num_model_outputs : nat) (snapshots snapshots' : list (list Runtime.value))
    (calib_mode : string) :
  snapshots ≡ₚ snapshots' ->
  Forall (fun outs => length outs = length (Runtime.get_outputs session)
                      /\ Forall Runtime.not_nan outs) snapshots ->
  result_equiv Runtime.stats_equiv
    (Runtime.aggregate session num_model_outputs snapshots calib_mode)
    (Runtime.aggregate session num_model_outputs snapshots' calib_mode).
Proof.
  intros Hperm Hall.
  assert (Hlen : Forall (fun outs => length outs
                                     = length (Runtime.get_outputs session))
                        snapshots)
    by (eapply Forall_impl; [exact Hall | by intros ? [? _]]).
  assert (Hnum : Forall (Forall Runtime.not_nan) snapshots)
    by (eapply Forall_impl; [exact Hall | by intros ? [_ ?]]).
  assert (Hlen' : Forall (fun outs => length outs
                                      = length (Runtime.get_outputs session))
                         snapshots') by (by rewrite <- Hperm).
  destruct snapshots as [|first more].
  { apply Permutation_nil_l in Hperm. by subst snapshots'. }
  destruct snapshots' as [|first' more'];
    [by apply Permutation_nil_r in Hperm|].
  unfold Runtime.aggregate. rewrite !subscript_head. rsimpl.
  rewrite (Forall_inv Hlen), (Forall_inv Hlen').
  rewrite output_names_prefix by (simpl; lia). rsimpl.
  set (names := map arg_name (take _ (drop 0 (Runtime.get_outputs session)))).
  destruct (String.eqb calib_mode "naive"); [|done].
  eapply result_equiv_bind; [|intros pairs pairs' Hpairs; by apply dict_zip_equiv].
  apply naive_pairs_agree.
  - apply clean_dict_agree.
    + set (hk := match length (Runtime.get_outputs session) with
                 | 0 => None | S _ => head names end).
      rewrite (first_key_merge_dicts _ hk), (first_key_merge_dicts _ hk).
      * done.
      * apply Forall_map. eapply Forall_impl; [exact Hlen'|].
        intros outs Ho. by apply first_key_dict_zip_length.
      * apply Forall_map. eapply Forall_impl; [exact Hlen|].
        intros outs Ho. by apply first_key_dict_zip_length.
    + apply merge_dicts_agree. by apply Permutation_map.
  - intros k col. by apply merged_columns_Forall.
Qed.

Lemma outputs_of_returns {tensor} (session : Runtime.InferenceSession tensor)
    (P : list Runtime.value -> Prop) (inputs : list tensor) :
  Forall (fun x => exists outs, Runtime.run session x = Ok outs /\ P outs)
         inputs ->
  Forall2 (fun x outs => Runtime.run session x = Ok outs) inputs
          (map (Runtime.outputs_of session) inputs)
  /\ Forall P (map (Runtime.outputs_of session) inputs).
Proof.
  induction 1 as [|x inputs (outs & Hx & HP) Hall [IH1 IH2]]; simpl.
  - split; constructor.
  - unfold Runtime.outputs_of at 1 3. rewrite Hx.
    split; by constructor.
Qed.
End Aggregation.

(** C6 (as amended).  When every run returns one value per declared output
    and no scalar among them is NaN, running [get_intermediate_outputs] on a
    permutation of the calibration dataset gives the same outcome: the same
    exception, or a statistics dictionary with the same keys in the same
    order and, under each key, a (min, max) that [==] equates with the
    other's. *)
Theorem aggregation_order_independent {N : Runtime.Numbers} {tensor}
    (files : gmap string ModelProto) (model_path : string)
    (session : Runtime.InferenceSession tensor) (inputs inputs' : list tensor)
    (calib_mode : string) (calls calls' : list tensor) :
  inputs ≡ₚ inputs' ->
  Forall (fun x => exists outs,
            Runtime.run session x = Ok outs
            /\ length outs = length (Runtime.get_outputs session)
            /\ Forall Runtime.not_nan outs) inputs ->
  result_equiv Runtime.stats_equiv
    (fst (Runtime.get_intermediate_outputs files model_path session inputs
            calib_mode calls))
    (fst (Runtime.get_intermediate_outputs files model_path session inputs'
            calib_mode calls')).
Proof.
  intros Hperm Hall.
  assert (Hall' : Forall (fun x => exists outs,
            Runtime.run session x = Ok outs
            /\ length outs = length (Runtime.get_outputs session)
            /\ Forall Runtime.not_nan outs) inputs') by (by rewrite <- Hperm).
  apply outputs_of_returns in Hall as [Hruns Hsnap].
  apply outputs_of_returns in Hall' as [Hruns' _].
  unfold Runtime.get_intermediate_outputs.
  destruct (onnx_load files model_path) as [model|e]; [|done].
  destruct (subscript SessionInputs (Runtime.get_inputs session) 0)
    as [input0|e]; [|done].
  rewrite (run_samples_returns _ _ _ _ _ Hruns),
    (run_samples_returns _ _ _ _ _ Hruns').
  cbn [fst].
  apply aggregate_Permutation; [by apply Permutation_map | done].
Qed.

Lemma aggregation_order_independent_witness :
  result_equiv (Runtime.stats_equiv (N := Runtime.exact))
    (fst (Runtime.get_intermediate_outputs Fixtures.files "model.onnx"
            Runs.session [3; 1; 2] "naive" []))
    (fst (Runtime.get_intermediate_outputs Fixtures.files "model.onnx"
            Runs.session [1; 2; 3] "naive" [])).
Proof.
  apply aggregation_order_independent.
  - etrans; [apply perm_swap | apply perm_skip, perm_swap].
  - repeat constructor; eexists; (split; [reflexivity|]);
      (split; [reflexivity|]); repeat constructor; discriminate.
Defined.

(** C6, refuted as stated: a sample whose minimum probe reports NaN makes
    the aggregated minimum depend on the order of the samples, [min] keeping
    its first element whenever the comparison with the next one is false. *)
Lemma aggregation_order_counterexample :
  [0; 1] ≡ₚ [1; 0]
  /\ fst (Runtime.get_intermediate_outputs Fixtures.files "model.onnx"
            Runs.with_nan [0; 1] "naive" [])
     = Ok [("y", (Runtime.NaN, Runtime.Finite 2))]
  /\ fst (Runtime.get_intermediate_outputs Fixtures.files "model.onnx"
            Runs.with_nan [1; 0] "naive" [])
     = Ok [("y", (Runtime.Finite 1, Runtime.Finite 2))]
  /\ ~ Runtime.stats_equiv (N := Runtime.exact)
         [("y", (Runtime.NaN, Runtime.Finite 2))]
         [("y", (Runtime.Finite 1, Runtime.Finite 2))].
Proof.
  split; [apply perm_swap|]. split; [reflexivity|]. split; [reflexivity|].
  intros H. apply Forall2_cons in H as [[_ [H _]] _]. discriminate H.
Qed.

(** ** Statistics aggregation: what the naive mode returns *)

Section Extrema.
Context {N : Runtime.Numbers}.



End Extrema.

Section NaiveColumns.
Context {N : Runtime.Numbers}.
Variable names : list string.
Variable num_model_outputs : nat.
Variable snapshots : list (list Runtime.value).
Hypothesis names_NoDup : NoDup names.
Hypothesis some_original_output : 0 < num_model_outputs.
Hypothesis some_snapshot : snapshots <> [].
Hypothesis snapshot_length :
  Forall (fun outs => length outs = length names) snapshots.
Hypothesis probes_numbers :
  Forall (fun outs => forall j v, num_model_outputs <= j -> outs !! j = Some v ->
                        exists a, v = Runtime.Scalar a
                                  /\ Runtime.val a <> Runtime.NaN)
         snapshots.


End NaiveColumns.



(** ** Parameter derivation: which exceptions it raises *)

Section DerivationErrors.
Context {N : Runtime.Numbers}.

Lemma calculate_scale_zeropoint_raises_float (nd next_node : NodeProto)
    (rmin rmax : Runtime.num) (e : exn) :
  Runtime.calculate_scale_zeropoint nd next_node rmin rmax = Raise e ->
  e = IndexError ClipAttribute.
Proof.
  unfold Runtime.calculate_scale_zeropoint, Runtime.zero_clamp.
  destruct (Runtime.adjust_range _ _ _) as [[lo hi]|e'] eqn:E; rsimpl.
  - destruct (zero_point_of_range_total lo (Runtime.scale_of_range lo hi))
      as (z & -> & _). discriminate.
  - intros [= <-]. by apply adjust_range_raises_float in E.
Qed.

Lemma params_loop_raises_float nodes th todo params e :
  Runtime.params_loop nodes th todo params = Raise e ->
  exists site, e = IndexError site.
Proof.
  revert params. induction todo as [|[index nd] todo IH]; intros params; simpl.
  - discriminate.
  - destruct (subscript NodeOutput0 (output nd) 0) as [o|e0] eqn:E0; rsimpl.
    2:{ intros [= <-]. apply subscript_raises in E0. eauto. }
    destruct (dict_mem th o) eqn:Hmem; [|apply IH].
    destruct (dict_mem_item _ _ Hmem) as [t ->]. rsimpl.
    destruct (subscript NextNode nodes (index + 1)) as [nx|e1] eqn:E1; rsimpl.
    2:{ intros [= <-]. apply subscript_raises in E1. eauto. }
    destruct (Runtime.calculate_scale_zeropoint nd nx (fst t) (snd t))
      as [p|e'] eqn:E; rsimpl; [apply IH|].
    intros [= <-]. apply calculate_scale_zeropoint_raises_float in E. eauto.
Qed.
End DerivationErrors.

(** X13.  [calculate_quantization_params] raises [ValueError] for every
    bit width other than 8, which is tested first, and for missing
    thresholds at bit width 8, and in no other case: with bit width 8 and
    thresholds given, the only exception it can raise is an [IndexError],
    whatever the thresholds, NaN and the infinities included. *)
Theorem derivation_configuration_errors {N : Runtime.Numbers}
    (model : ModelProto) (nbits : Z)
    (quantization_thresholds : option (dict (Runtime.num * Runtime.num))) :
  (nbits <> 8%Z ->
   Runtime.calculate_quantization_params model nbits quantization_thresholds
   = Raise (ValueError "Unknown value for nbits. only 8 bit quantization is currently supported"))
  /\ (nbits = 8%Z -> quantization_thresholds = None ->
      Runtime.calculate_quantization_params model nbits quantization_thresholds
      = Raise (ValueError "output quantization threshold is required to calculate quantization thresholds"))
  /\ (nbits = 8%Z -> is_Some quantization_thresholds ->
      forall e,
        Runtime.calculate_quantization_params model nbits quantization_thresholds
        = Raise e ->
        exists site, e = IndexError site).
Proof.
  unfold Runtime.calculate_quantization_params.
  split; [|split].
  - intros Hne. apply Z.eqb_neq in Hne. by rewrite Hne.
  - by intros -> ->.
  - intros -> [th ->] e. simpl. apply params_loop_raises_float.
Qed.

Lemma derivation_configuration_errors_witness :
  Runtime.calculate_quantization_params (N := Runtime.exact)
    (Fixtures.model_of [Fixtures.conv]) 16 None
  = Raise (ValueError "Unknown value for nbits. only 8 bit quantization is currently supported")
  /\ Runtime.calculate_quantization_params (N := Runtime.exact)
       (Fixtures.model_of [Fixtures.conv]) 8 None
     = Raise (ValueError "output quantization threshold is required to calculate quantization thresholds").
Proof.
  split.
  - apply (proj1 (derivation_configuration_errors (N := Runtime.exact)
                    (Fixtures.model_of [Fixtures.conv]) 16 None)).
    discriminate.
  - apply (proj1 (proj2 (derivation_configuration_errors (N := Runtime.exact)
                           (Fixtures.model_of [Fixtures.conv]) 8 None)));
      reflexivity.
Defined.

(** ** [main]: what it writes and what it leaves alone *)






(** ** A [Relu] successor *)

Lemma float_between_zero (a : Runtime.float) :
  a <> Runtime.NaN ->
  Runtime.float_lt (Runtime.Finite 0) a = false ->
  Runtime.float_lt a (Runtime.Finite 0) = false ->
  Runtime.float_eq a (Runtime.Finite 0) = true.
Proof.
  destruct a as [q| | |]; simpl; try done.
  intros _ H1%Qlt_bool_false H2%Qlt_bool_false. apply Qeq_bool_iff. lra.
Qed.

Lemma float_eq_zero_l (a b : Runtime.float) :
  Runtime.float_eq a (Runtime.Finite 0) = true ->
  Runtime.float_eq a b = Runtime.float_eq (Runtime.Finite 0) b.
Proof.
  destruct a as [q| | |], b as [r| | |]; simpl; try done.
  intros H%Qeq_bool_iff.
  destruct (Qeq_bool 0 r) eqn:E.
  - apply Qeq_bool_iff in E. apply Qeq_bool_iff. lra.
  - apply Qeq_bool_neq in E. apply not_true_iff_false.
    intros H'%Qeq_bool_iff. apply E. lra.
Qed.

(** X10.  With a [Relu] successor and statistics that are numbers, the
    range the parameters are computed from has a lower end that is zero and
    [max(rmax, 0)] as its upper end; the call returns, with the scale
    [np.float32(1)] when [rmax <= 0] and [np.float32((rmax - rmin)/255)],
    [rmin] being that zero, when [rmax > 0]. *)
Theorem relu_successor_params {N : Runtime.Numbers}
    (nd next_node : NodeProto) (rmin rmax : Runtime.num) :
  op_type next_node = "Relu" ->
  Runtime.val rmin <> Runtime.NaN -> Runtime.val rmax <> Runtime.NaN ->
  exists lo zero_point,
    Runtime.adjust_range next_node
      (Runtime.py_min rmin (Runtime.of_int 0))
      (Runtime.py_max rmax (Runtime.of_int 0))
    = Ok (lo, Runtime.py_max rmax (Runtime.of_int 0))
    /\ Runtime.float_eq (Runtime.val lo) (Runtime.Finite 0) = true
    /\ Runtime.float_le (Runtime.Finite 0)
         (Runtime.val (Runtime.py_max rmax (Runtime.of_int 0)))
    /\ Runtime.calculate_scale_zeropoint nd next_node rmin rmax
       = Ok (zero_point,
             Runtime.np_float32
               (if Runtime.float_lt (Runtime.Finite 0) (Runtime.val rmax)
                then Runtime.div (Runtime.sub rmax lo) (Runtime.of_int 255)
                else Runtime.of_int 1)).
Proof.
  intros HR Hmin Hmax.
  set (lo0 := Runtime.py_min rmin (Runtime.of_int 0)).
  set (hi := Runtime.py_max rmax (Runtime.of_int 0)).
  set (lo := if Runtime.float_lt (Runtime.val lo0) (Runtime.val (Runtime.of_int 0))
             then Runtime.of_int 0 else lo0).
  assert (Hadj : Runtime.adjust_range next_node lo0 hi = Ok (lo, hi)).
  { unfold Runtime.adjust_range. by rewrite HR. }
  assert (Hlo : Runtime.float_eq (Runtime.val lo) (Runtime.Finite 0) = true).
  { unfold lo.
    destruct (Runtime.float_lt (Runtime.val lo0) (Runtime.val (Runtime.of_int 0)))
      eqn:E; [by rewrite Runtime.val_of_int|].
    unfold lo0, Runtime.py_min in *.
    destruct (Runtime.float_lt (Runtime.val (Runtime.of_int 0)) (Runtime.val rmin))
      eqn:E1; [by rewrite Runtime.val_of_int|].
    rewrite Runtime.val_of_int in E, E1. by apply float_between_zero. }
  assert (Hhi : Runtime.float_le (Runtime.Finite 0) (Runtime.val hi)).
  { unfold hi, Runtime.py_max.
    destruct (Runtime.float_lt (Runtime.val rmax) (Runtime.val (Runtime.of_int 0)))
      eqn:E.
    - rewrite Runtime.val_of_int. by apply float_le_refl.
    - rewrite Runtime.val_of_int in E. by repeat split. }
  destruct (zero_point_of_range_total lo (Runtime.scale_of_range lo hi))
    as (zp & Hzp & _).
  exists lo, zp. split; [exact Hadj|]. split; [exact Hlo|]. split; [exact Hhi|].
  unfold Runtime.calculate_scale_zeropoint, Runtime.zero_clamp.
  fold lo0 hi. rewrite Hadj. rsimpl. rewrite Hzp. rsimpl.
  do 2 f_equal. unfold Runtime.scale_of_range.
  rewrite (float_eq_zero_l _ _ Hlo).
  unfold hi, Runtime.py_max.
  destruct (Runtime.float_lt (Runtime.val rmax) (Runtime.val (Runtime.of_int 0)))
    eqn:E; rewrite Runtime.val_of_int in E.
  - rewrite Runtime.val_of_int. apply float_lt_asym in E.
    change (inject_Z 0) with 0%Q in E. by rewrite E.
  - change (inject_Z 0) with 0%Q in E.
    destruct (Runtime.float_lt (Runtime.Finite 0) (Runtime.val rmax)) eqn:E'.
    + destruct (Runtime.val rmax) as [q| | |]; simpl in *; try done.
      apply Qlt_bool_true in E'.
      destruct (Qeq_bool 0 q) eqn:Eq; [|done].
      apply Qeq_bool_iff in Eq. lra.
    + destruct (Runtime.val rmax) as [q| | |]; simpl in *; try done.
      apply Qlt_bool_false in E, E'.
      replace (Qeq_bool 0 q) with true; [done|].
      symmetry. apply Qeq_bool_iff. lra.
Qed.

Lemma relu_successor_params_witness :
  exists zero_point,
    Runtime.calculate_scale_zeropoint (N := Runtime.exact)
      Fixtures.conv Fixtures.relu (Runtime.Finite (-3)) (Runtime.Finite 5)
    = Ok (zero_point, Runtime.Finite (5 / 255)).
Proof.
  destruct (relu_successor_params (N := Runtime.exact)
              Fixtures.conv Fixtures.relu
              (Runtime.Finite (-3)) (Runtime.Finite 5) eq_refl)
    as (lo & zp & Hadj & _ & _ & Hcalc); [discriminate | discriminate |].
  exists zp. rewrite Hcalc. injection Hadj as <-. reflexivity.
Defined.

(** * Agreement of the two layers

    On rationals, with exact arithmetic and sessions that return, the
    run-time layer computes what the idealised layer computes. *)

Lemma scale_of_range_nonzero (rmin rmax : Q) : ~ (scale_of_range rmin rmax == 0)%Q.
Proof.
  unfold scale_of_range, np_float32.
  destruct (Qeq_bool rmin rmax) eqn:E; simpl.
  - lra.
  - apply Qeq_bool_neq in E. intros H. apply E.
    assert (H1 : (rmax - rmin == (rmax - rmin) / 255 * 255)%Q) by field.
    rewrite H in H1. lra.
Qed.

(** Unfolds the exact numbers and splits on the comparisons met. *)
Ltac exact_cases :=
  cbn [Runtime.val Runtime.of_int Runtime.of_float Runtime.to_float
       Runtime.np_float32 Runtime.sub Runtime.div Runtime.exact
       Runtime.float_lt Runtime.float_eq Runtime.exact_sub Runtime.exact_div];
  change (inject_Z 0) with 0%Q; change (inject_Z 255) with 255%Q;
  repeat match goal with
         | |- context [Qlt_bool ?a ?b] =>
             destruct (Qlt_bool a b); cbn [Runtime.float_lt]
         | |- context [String.eqb ?a ?b] => destruct (String.eqb a b)
         end;
  try reflexivity.

Lemma exact_adjust_range (next_node : NodeProto) (lo hi : Q) :
  Runtime.adjust_range (N := Runtime.exact) next_node
    (Runtime.Finite lo) (Runtime.Finite hi)
  = inj_range <$> adjust_range next_node lo hi.
Proof.
  unfold Runtime.adjust_range, adjust_range.
  destruct (String.eqb (op_type next_node) "Clip").
  - destruct (subscript ClipAttribute (attribute next_node) 0) as [a0|e];
      [|done].
    destruct (subscript ClipAttribute (attribute next_node) 1) as [a1|e];
      [|done].
    rsimpl. exact_cases.
  - rsimpl. exact_cases.
Qed.

Lemma exact_calculate_scale_zeropoint (nd next_node : NodeProto) (rmin rmax : Q) :
  Runtime.calculate_scale_zeropoint (N := Runtime.exact) nd next_node
    (Runtime.Finite rmin) (Runtime.Finite rmax)
  = inj_params <$> calculate_scale_zeropoint nd next_node rmin rmax.
Proof.
  unfold Runtime.calculate_scale_zeropoint, calculate_scale_zeropoint,
    Runtime.zero_clamp, zero_clamp.
  assert (Hmin : Runtime.py_min (N := Runtime.exact) (Runtime.Finite rmin)
                   (Runtime.of_int 0) = Runtime.Finite (py_min rmin 0)).
  { unfold Runtime.py_min, py_min. exact_cases. }
  assert (Hmax : Runtime.py_max (N := Runtime.exact) (Runtime.Finite rmax)
                   (Runtime.of_int 0) = Runtime.Finite (py_max rmax 0)).
  { unfold Runtime.py_max, py_max. exact_cases. }
  rewrite Hmin, Hmax, exact_adjust_range.
  destruct (adjust_range next_node (py_min rmin 0) (py_max rmax 0))
    as [[lo hi]|e]; [|done].
  cbn [fmap result_fmap rbind mbind result_bind inj_range fst snd].
  pose proof (scale_of_range_nonzero lo hi) as Hne.
  assert (Hscale : Runtime.scale_of_range (N := Runtime.exact)
                     (Runtime.Finite lo) (Runtime.Finite hi)
                   = Runtime.Finite (scale_of_range lo hi)).
  { unfold Runtime.scale_of_range, scale_of_range, np_float32.
    cbn [Runtime.val Runtime.of_int Runtime.np_float32 Runtime.sub Runtime.div
         Runtime.exact Runtime.float_eq].
    by destruct (Qeq_bool lo hi). }
  rewrite Hscale.
  set (scale := scale_of_range lo hi) in *.
  assert (Hzp : Runtime.zero_point_of_range (N := Runtime.exact)
                  (Runtime.Finite lo) (Runtime.Finite scale)
                = Ok (zero_point_of_range lo scale)).
  { unfold Runtime.zero_point_of_range, zero_point_of_range.
    cbn [Runtime.val Runtime.of_int Runtime.sub Runtime.div Runtime.exact
         Runtime.exact_sub Runtime.exact_div].
    destruct (Qeq_bool scale 0) eqn:E; [by apply Qeq_bool_iff in E|].
    unfold Runtime.py_max, Runtime.py_min, py_max, py_min. exact_cases. }
  by rewrite Hzp.
Qed.

Lemma dict_get_inj {A B} (f : A -> B) (d : dict A) (k : string) :
  dict_get (inj_dict f d) k = f <$> dict_get d k.
Proof.
  induction d as [|[k' v] d IH]; simpl; [done|].
  by destruct (String.eqb k' k).
Qed.

Lemma dict_set_inj {A B} (f : A -> B) (d : dict A) (k : string) (v : A) :
  dict_set (inj_dict f d) k (f v) = inj_dict f (dict_set d k v).
Proof.
  induction d as [|[k' v'] d IH]; simpl; [done|].
  destruct (String.eqb k' k); simpl; [done|]. by rewrite IH.
Qed.

Lemma exact_params_loop nodes (th : dict (Q * Q)) todo (params : dict (Z * Q)) :
  Runtime.params_loop (N := Runtime.exact) nodes (inj_dict inj_range th) todo
    (inj_dict inj_params params)
  = inj_dict inj_params <$> params_loop nodes th todo params.
Proof.
  revert params. induction todo as [|[index nd] todo IH]; intros params; simpl.
  - reflexivity.
  - destruct (subscript NodeOutput0 (output nd) 0) as [o|e]; [|done]. rsimpl.
    unfold dict_mem, dict_item. rewrite dict_get_inj.
    destruct (dict_get th o) as [[rmin rmax]|]; simpl; [|apply IH].
    destruct (subscript NextNode nodes (index + 1)) as [nx|e]; [|done]. rsimpl.
    rewrite exact_calculate_scale_zeropoint.
    destruct (calculate_scale_zeropoint nd nx rmin rmax) as [p|e]; [|done].
    cbn [fmap result_fmap rbind mbind result_bind].
    rewrite dict_set_inj. apply IH.
Qed.

(** Parameter derivation. *)
Lemma exact_calculate_quantization_params (model : ModelProto) (nbits : Z)
    (thresholds : option (dict (Q * Q))) :
  Runtime.calculate_quantization_params (N := Runtime.exact) model nbits
    (inj_dict inj_range <$> thresholds)
  = inj_dict inj_params <$> calculate_quantization_params model nbits thresholds.
Proof.
  unfold Runtime.calculate_quantization_params, calculate_quantization_params.
  destruct (negb (nbits =? 8)%Z); [done|].
  destruct thresholds as [th|]; [|done]. simpl.
  apply (exact_params_loop _ _ _ []).
Qed.

(** Dictionaries of injected values. *)
Lemma fold_dict_set_inj {A B} (f : A -> B) (ks : list string) (vs : list A)
    (d : dict A) :
  fold_left (fun d kv => dict_set d (fst kv) (snd kv))
            (combine ks (map f vs)) (inj_dict f d)
  = inj_dict f (fold_left (fun d kv => dict_set d (fst kv) (snd kv))
                          (combine ks vs) d).
Proof.
  revert vs d. induction ks as [|k ks IH]; intros vs d; [done|].
  destruct vs as [|v vs]; [done|]. simpl.
  rewrite dict_set_inj. apply IH.
Qed.

Lemma dict_zip_inj {A B} (f : A -> B) (ks : list string) (vs : list A) :
  dict_zip ks (map f vs) = inj_dict f (dict_zip ks vs).
Proof. apply (fold_dict_set_inj f ks vs []). Qed.

Lemma setdefault_append_inj {A B} (f : A -> B) (merged : dict (list A))
    (k : string) (v : A) :
  setdefault_append (inj_dict (map f) merged) k (f v)
  = inj_dict (map f) (setdefault_append merged k v).
Proof.
  unfold setdefault_append. rewrite dict_get_inj, <- dict_set_inj. f_equal.
  destruct (dict_get merged k) as [l|]; simpl; [|done].
  by rewrite map_app.
Qed.

Lemma merge_dicts_inj {A B} (f : A -> B) (ds : list (dict A)) :
  merge_dicts (map (inj_dict f) ds) = inj_dict (map f) (merge_dicts ds).
Proof.
  unfold merge_dicts.
  change (@nil (string * list B)) with (inj_dict (map f) (@nil (string * list A))).
  generalize (@nil (string * list A)).
  induction ds as [|d ds IH]; intros merged; [done|].
  cbn [map fold_left]. rewrite <- IH. f_equal.
  clear IH. revert merged.
  induction d as [|[k v] d IHd]; intros merged; [done|].
  cbn [inj_dict map fold_left fst snd].
  rewrite setdefault_append_inj. apply IHd.
Qed.

Lemma clean_dict_inj {A B} (f : A -> B) (d : dict A) :
  clean_dict (inj_dict f d) = inj_dict f (clean_dict d).
Proof.
  unfold clean_dict, dict_keys, inj_dict. rewrite map_map. cbn [fst].
  destruct (map fst d) as [|first keys]; [done|].
  induction d as [|[k v] d IH]; [done|]. simpl.
  destruct (negb (String.eqb k first)); simpl; by rewrite IH.
Qed.

Lemma min_of_inj (l : list value) :
  Runtime.min_of (map inj_value l) = inj_value <$> min_of l.
Proof.
  destruct l as [|x rest]; [done|]. cbn [map Runtime.min_of min_of].
  revert x. induction rest as [|y rest IH]; intros x; [done|].
  cbn [map rfold_left].
  destruct y as [a|], x as [b|]; try done.
  cbn [inj_value Runtime.value_lt value_lt Runtime.val Runtime.exact
       Runtime.float_lt]. rsimpl.
  destruct (Qlt_bool a b); apply (IH (Scalar _)).
Qed.

Lemma max_of_inj (l : list value) :
  Runtime.max_of (map inj_value l) = inj_value <$> max_of l.
Proof.
  destruct l as [|x rest]; [done|]. cbn [map Runtime.max_of max_of].
  revert x. induction rest as [|y rest IH]; intros x; [done|].
  cbn [map rfold_left].
  destruct y as [a|], x as [b|]; try done.
  cbn [inj_value Runtime.value_lt value_lt Runtime.val Runtime.exact
       Runtime.float_lt]. rsimpl.
  destruct (Qlt_bool b a); apply (IH (Scalar _)).
Qed.

Lemma py_float_inj (v : value) :
  Runtime.py_float (inj_value v) = Runtime.Finite <$> py_float v.
Proof. by destruct v. Qed.

Lemma naive_pairs_inj (d : dict (list value)) (added : list string) :
  Runtime.naive_pairs (inj_dict (map inj_value) d) added
  = map inj_range <$> naive_pairs d added.
Proof.
  cut (Runtime.naive_pairs (inj_dict (map inj_value) d) added
       = map inj_range <$> naive_pairs d added
       /\ forall a,
            Runtime.naive_pairs (inj_dict (map inj_value) d) (a :: added)
            = map inj_range <$> naive_pairs d (a :: added)).
  { by intros [H _]. }
  assert (Hstep : forall a rest,
            Runtime.naive_pairs (inj_dict (map inj_value) d) rest
            = map inj_range <$> naive_pairs d rest ->
            forall b,
              Runtime.naive_pairs (inj_dict (map inj_value) d) (a :: b :: rest)
              = map inj_range <$> naive_pairs d (a :: b :: rest)).
  { intros a rest IH b. cbn [Runtime.naive_pairs naive_pairs].
    unfold dict_item. rewrite !dict_get_inj.
    destruct (dict_get d a) as [mins|]; [|done]. simpl. rsimpl.
    rewrite min_of_inj. destruct (min_of mins) as [lo|e]; [|done].
    cbn [fmap result_fmap rbind mbind result_bind]. rewrite py_float_inj.
    destruct (py_float lo) as [qlo|e]; [|done].
    cbn [fmap result_fmap rbind mbind result_bind].
    destruct (dict_get d b) as [maxs|]; [|done]. simpl. rsimpl.
    rewrite max_of_inj. destruct (max_of maxs) as [hi|e]; [|done].
    cbn [fmap result_fmap rbind mbind result_bind]. rewrite py_float_inj.
    destruct (py_float hi) as [qhi|e]; [|done].
    cbn [fmap result_fmap rbind mbind result_bind]. rewrite IH.
    by destruct (naive_pairs d rest). }
  induction added as [|b added [IH0 IH1]].
  - split; [done|]. intros a. cbn [Runtime.naive_pairs naive_pairs].
    unfold dict_item. rewrite dict_get_inj.
    destruct (dict_get d a) as [mins|]; [|done]. simpl. rsimpl.
    rewrite min_of_inj. destruct (min_of mins) as [lo|e]; [|done].
    cbn [fmap result_fmap rbind mbind result_bind]. rewrite py_float_inj.
    by destruct (py_float lo).
  - split; [apply IH1|]. intros a. by apply Hstep.
Qed.

Lemma exact_aggregate {tensor} (session : InferenceSession tensor)
    (num_model_outputs : nat) (snapshots : list (list value))
    (calib_mode : string) :
  Runtime.aggregate (inj_session session) num_model_outputs
    (map (map inj_value) snapshots) calib_mode
  = inj_dict inj_range <$> aggregate session num_model_outputs snapshots calib_mode.
Proof.
  unfold Runtime.aggregate, aggregate.
  assert (Hfirst : subscript FirstSnapshot (map (map inj_value) snapshots) 0
                   = map inj_value <$> subscript FirstSnapshot snapshots 0)
    by (by destruct snapshots).
  rewrite Hfirst.
  destruct (subscript FirstSnapshot snapshots 0) as [first|e]; [|done].
  cbn [fmap result_fmap rbind mbind result_bind]. rewrite length_map.
  cbn [Runtime.get_outputs inj_session].
  destruct (mapM _ _) as [names|e]; [|done]. rsimpl.
  rewrite map_map.
  erewrite (map_ext _ (fun outs => inj_dict inj_value (dict_zip names outs)))
    by (intros outs; apply dict_zip_inj).
  rewrite <- (map_map (dict_zip names) (inj_dict inj_value)).
  rewrite merge_dicts_inj, clean_dict_inj.
  destruct (String.eqb calib_mode "naive"); [|done].
  rewrite naive_pairs_inj.
  destruct (naive_pairs _ _) as [pairs|e]; [|done].
  cbn [fmap result_fmap rbind mbind result_bind].
  by rewrite dict_zip_inj.
Qed.

(** Statistics aggregation. *)
Lemma exact_get_intermediate_outputs {tensor}
    (files : gmap string ModelProto) (model_path : string)
    (session : InferenceSession tensor) (inputs : list tensor)
    (calib_mode : string) (calls : list tensor) :
  Runtime.get_intermediate_outputs files model_path (inj_session session)
    inputs calib_mode calls
  = (inj_dict inj_range
       <$> fst (get_intermediate_outputs files model_path session inputs
                  calib_mode calls),
     snd (get_intermediate_outputs files model_path session inputs
            calib_mode calls)).
Proof.
  unfold Runtime.get_intermediate_outputs, get_intermediate_outputs.
  destruct (onnx_load files model_path) as [model|e]; [|done].
  cbn [Runtime.get_inputs inj_session].
  destruct (subscript SessionInputs (get_inputs session) 0) as [input0|e];
    [|done].
  rewrite run_samples_spec.
  rewrite (run_samples_returns (inj_session session) _ inputs calls
             (map (map inj_value) (map (run session) inputs))).
  - cbn [fst snd]. by rewrite exact_aggregate.
  - clear. induction inputs as [|x inputs IH]; constructor; done.
Qed.

(** [main]: the idealised layer follows [main] up to line 225; the
    run-time layer goes on with lines 226-227 from the state reached
    there. *)
Lemma exact_main {tensor} (engine : ModelProto -> InferenceSession tensor)
    (quantize : ModelProto -> dict (Z * Runtime.float) -> result ModelProto)
    (inputs : list tensor) (model_path output_model_path calib_mode : string)
    (w : world tensor) :
  Runtime.main (N := Runtime.exact) (fun m => inj_session (engine m))
    (fun _ => Ok inputs) quantize model_path output_model_path calib_mode w
  = match main engine model_path calib_mode inputs w with
    | (Raise e, w') => (Raise e, w')
    | (Ok quantization_params_dict, w') =>
        match (reloaded ← onnx_load (w_files w') model_path;
               quantize reloaded (inj_dict inj_params quantization_params_dict)) with
        | Raise e => (Raise e, w')
        | Ok calibrated_quantized_model =>
            (Ok (),
             Build_world (w_heap w')
               (<[output_model_path := calibrated_quantized_model]> (w_files w'))
               (w_calls w'))
        end
    end.
Proof.
  unfold Runtime.main, main.
  destruct (onnx_load (w_files w) model_path) as [loaded|e]; [|done].
  destruct (augment_graph _ _) as [[augmented_model|e] h]; [|done].
  destruct (h !! augmented_model) as [saved|]; [|done].
  destruct (onnx_load _ augmented_model_path) as [served|e]; [|done].
  cbn [Runtime.get_inputs inj_session].
  destruct (subscript SessionInputs (get_inputs (engine served)) 0)
    as [input0|e]; [|done]. rsimpl.
  destruct (unpack4 (arg_shape input0)) as [shape|e]; [|done]. rsimpl.
  rewrite exact_get_intermediate_outputs.
  destruct (get_intermediate_outputs _ _ _ _ _ _) as [[stats|e] calls];
    cbn [fst snd fmap result_fmap rbind mbind result_bind]; [|done].
  destruct (h !! length (w_heap w)) as [current|]; [|done].
  pose proof (exact_calculate_quantization_params current 8 (Some stats)) as Hq.
  cbn [fmap option_fmap option_map] in Hq.
  change (@Runtime.num Runtime.exact) with Runtime.float in *.
  rewrite Hq.
  destruct (calculate_quantization_params current 8 (Some stats))
    as [params|e]; [|done].
  cbn [fmap result_fmap rbind mbind result_bind w_heap w_files w_calls].
  by destruct (onnx_load _ model_path ≫= _).
Qed.
